(** * schema_salad: the Python code generator and the units it emits

    A shallow embedding of [schema_salad/python_codegen.py].

    The generator writes Python source text.  The embedding keeps the
    templates as structured chunks: every template of the source is one
    constructor carrying the values that the source substitutes into it, and
    the meaning of a chunk is the meaning of the Python text it stands for.

    - Part 1: documents, validation errors, type descriptors.
    - Part 2: the generator ([PythonCodeGen]) and the loader compiler
              ([type_loader] and the wrapping loaders).
    - Part 3: running the emitted [fromDoc] and [save] routines.
    - Part 4: properties. *)

From stdpp Require Import base option list strings gmap.
From Stdlib Require Import Ascii ZArith DecimalString DecimalPos DecimalZ.

Set Warnings "-register-all".
Open Scope string_scope.
Open Scope list_scope.

(** ** Part 1: data *)

(** Document trees exchanged with the emitted code (YAML/JSON-like), plus
    loaded objects.  Floating-point scalars are left out. *)
Inductive value : Type :=
| VNone
| VBool (b : bool)
| VInt (z : Z)
| VStr (s : string)
| VList (l : list value)
| VMap (m : list (string * value))
| VObj (cls : string) (attrs : list (string * value)).

(** An insertion-ordered mapping with string keys ([CommentedMap],
    [OrderedDict]). *)
Definition odict (A : Type) : Type := list (string * A).

Fixpoint odict_get {A} (k : string) (m : odict A) : option A :=
  match m with
  | [] => None
  | (k', v) :: m' => if String.eqb k k' then Some v else odict_get k m'
  end.

(** [m[k] = v]: replaces in place, or appends a new key at the end. *)
Fixpoint odict_set {A} (k : string) (v : A) (m : odict A) : odict A :=
  match m with
  | [] => [(k, v)]
  | (k', v') :: m' =>
      if String.eqb k k' then (k, v) :: m' else (k', v') :: odict_set k v m'
  end.

Definition odict_keys {A} (m : odict A) : list string := map fst m.

Definition odict_mem {A} (k : string) (m : odict A) : bool :=
  match odict_get k m with Some _ => true | None => false end.

(** Python's [x in seq] for strings. *)
Definition str_in (k : string) (l : list string) : bool :=
  existsb (String.eqb k) l.

(** [c in s] for a one-character needle. *)
Fixpoint has_char (c : ascii) (s : string) : bool :=
  match s with
  | EmptyString => false
  | String c' s' => if Ascii.eqb c c' then true else has_char c s'
  end.

(** Python truthiness, as used by [if u:] and [if _errors__:]. *)
Definition truthy (v : value) : bool :=
  match v with
  | VNone => false
  | VBool b => b
  | VInt z => negb (Z.eqb z 0)
  | VStr s => negb (String.eqb s EmptyString)
  | VList l => match l with [] => false | _ => true end
  | VMap m => match m with [] => false | _ => true end
  | VObj _ _ => true
  end.

(** [SourceLine(item, key, str)]. *)
Record SourceLine : Type := mkSourceLine {
  sl_item : odict value;
  sl_key : string
}.

(** [ValidationException(message, sourceline, children)]. *)
Inductive ValidationException : Type :=
| VExc (msg : string) (sl : option SourceLine)
       (children : list ValidationException).

Definition exc_msg (e : ValidationException) : string :=
  match e with VExc m _ _ => m end.

Definition exc_children (e : ValidationException) : list ValidationException :=
  match e with VExc _ _ c => c end.

(** Modelled from the spec: the declaration of [TypeDef] (codegen_base) is
    not among the sources.  A descriptor has a canonical name, a
    construction recipe and the flags isURI, scopedId and refScope:
    [TypeDef(name, init, is_uri, scoped_id, ref_scope)]. *)
Record TypeDef : Type := mkTypeDef {
  name : string;
  init : string;
  is_uri : bool;
  scoped_id : bool;
  ref_scope : option Z
}.

(** [TypeDef(name, init)].  The flags of a descriptor built without them
    are read by the generator only under [is_uri], which is off here; the
    two others are taken as unset. *)
Definition TypeDef2 (n i : string) : TypeDef :=
  mkTypeDef n i false false None.

(** Errors of the generator itself. *)
Inductive gen_error : Type :=
| SchemaException (msg : string)
| KeyError (key : string).

(** The eight entries of the module-level table [prims], in source order. *)
Definition prims : list (string * TypeDef) :=
  [ ("http://www.w3.org/2001/XMLSchema#string",
     TypeDef2 "strtype" "_PrimitiveLoader((str, str))");
    ("http://www.w3.org/2001/XMLSchema#int",
     TypeDef2 "inttype" "_PrimitiveLoader(int)");
    ("http://www.w3.org/2001/XMLSchema#long",
     TypeDef2 "inttype" "_PrimitiveLoader(int)");
    ("http://www.w3.org/2001/XMLSchema#float",
     TypeDef2 "floattype" "_PrimitiveLoader(float)");
    ("http://www.w3.org/2001/XMLSchema#double",
     TypeDef2 "floattype" "_PrimitiveLoader(float)");
    ("http://www.w3.org/2001/XMLSchema#boolean",
     TypeDef2 "booltype" "_PrimitiveLoader(bool)");
    ("https://w3id.org/cwl/salad#null",
     TypeDef2 "None_type" "_PrimitiveLoader(type(None))");
    ("https://w3id.org/cwl/salad#Any",
     TypeDef2 "Any_type" "_AnyLoader()") ].

(** A schema type declaration as [type_loader] receives it:
    [Union[List[Any], Dict[str, Any], str]].  A mapping is read at the keys
    "type", "items", "name" and "symbols"; a key that is not there is
    [None] here and a [KeyError] when read. *)
Inductive type_declaration : Type :=
| TSeq (alternatives : list type_declaration)
| TMap (type_ : string) (items : option type_declaration)
       (name_ : option string) (symbols : option (list string))
| TStr (s : string).

(** Python's [str.format] on the values the templates receive. *)
Definition fmt_bool (b : bool) : string := if b then "True" else "False".

Definition fmt_int (z : Z) : string := NilZero.string_of_int (Z.to_int z).

Definition fmt_opt_int (o : option Z) : string :=
  match o with Some z => fmt_int z | None => "None" end.

Definition fmt_opt_str (o : option string) : string :=
  match o with Some s => s | None => "None" end.

(** [sep.join(l)]. *)
Definition join (sep : string) (l : list string) : string :=
  String.concat sep l.

(** [s.strip()], on the ASCII white space. *)
Definition is_space (c : ascii) : bool :=
  let n := nat_of_ascii c in
  (Nat.leb 9 n && Nat.leb n 13) || (Nat.leb 28 n && Nat.leb n 32).

Fixpoint lstrip (s : string) : string :=
  match s with
  | EmptyString => EmptyString
  | String c s' => if is_space c then lstrip s' else s
  end.

Fixpoint rstrip (s : string) : string :=
  match s with
  | EmptyString => EmptyString
  | String c s' =>
      match rstrip s' with
      | EmptyString => if is_space c then EmptyString else String c EmptyString
      | r => String c r
      end
  end.

Definition strip (s : string) : string := rstrip (lstrip s).

(** ** Part 2: the generator *)

(** The base of a serialized field: the [base_url] argument of [save], or
    an attribute of the instance, [self.<safename>]. *)
Inductive base_expr : Type :=
| BaseUrl
| SelfAttr (safename : string).

(** What the emitted id block does when there is neither an id nor a
    document root. *)
Inductive id_opt : Type :=
| OptUuid (safename : string)
    (* <safename> = "_:" + str(_uuid__.uuid4()) *)
| OptMissing (fieldname : string)
    (* raise ValidationException("Missing <fieldname>") *).

Inductive field_init : Type :=
| InitClass (classname : string)  (* self.class_ = "<classname>" *)
| InitAttr (safename : string)    (* self.<safename> = <safename> *).

#[global] Instance field_init_eq_dec : EqDecision field_init.
Proof. solve_decision. Defined.

(** One constructor per template of the source, with the values that
    [format] substitutes.

    - [Preamble]: the licence header and the support code.
    - [ClassHeader c ext]: [class c(ext):]; [DocString]; [AbstractPass]:
      [pass].
    - [InitMethod params]: [def __init__(self, p, q=None, ...,
      extension_fields=None, loadingOptions=None)], a parameter with its
      flag set having the default [None]; [FieldInits]: its assignments.
    - [FromDocHeader]: [def fromDoc(cls, doc, baseuri, loadingOptions,
      docRoot=None)], [_doc = copy.copy(doc)], [_errors__ = []].
    - [ClassCheck c]: [if _doc.get('class') != 'c': raise
      ValidationException("Not a c")].
    - [LoadField optional safename fieldname fieldtype]: the [try] around
      [load_field], under [if 'fieldname' in _doc: ... else: safename =
      None] when optional.
    - [IdDefault safename opt]: [if safename is None: if docRoot is not
      None: safename = docRoot else: opt], then [baseuri = safename].
    - [ExtScan attrstr c]: the loop over the undeclared keys, then
      [if _errors__: raise ValidationException("Trying 'c'", None,
      _errors__)].
    - [SnapshotOptions]: [loadingOptions = copy.deepcopy(loadingOptions)],
      [loadingOptions.original_doc = _doc].
    - [ReturnCls args]: [return cls(args, extension_fields=...,
      loadingOptions=...)].
    - [SaveHeader]: [def save(self, top=False, base_url=..., relative_uris=
      True)], [r = CommentedMap()], the extension fields;
      [SaveClass c]: [r['class'] = 'c']; [SaveUri] and [SaveField]: one
      field; [SaveNamespaces]; [SaveReturn]: [return r].
    - [Attrs names]: [attrs = frozenset(names)]; [Blank]: empty lines. *)
Inductive chunk : Type :=
| Preamble
| ClassHeader (classname ext : string)
| DocString (doc : string)
| AbstractPass
| InitMethod (params : list (string * bool))
| FieldInits (inits : list field_init)
| FromDocHeader (classname : string)
| ClassCheck (class_ : string)
| LoadField (optional : bool) (safename fieldname fieldtype : string)
| IdDefault (safename : string) (opt : id_opt)
| ExtScan (attrstr class_ : string)
| SnapshotOptions
| ReturnCls (safe_inits : list string)
| SaveHeader
| SaveClass (class_ : string)
| SaveUri (safename : string) (baseurl : base_expr)
          (scoped : bool) (refscope : option Z) (fieldname : string)
| SaveField (safename fieldname : string) (baseurl : base_expr)
| SaveNamespaces
| SaveReturn
| Attrs (field_names : list string)
| Blank.

(** The generator object: [CodeGenBase]'s registry and vocabulary and
    [PythonCodeGen]'s own attributes. *)
Record PythonCodeGen : Type := mkGen {
  out : list chunk;
  current_class_is_abstract : bool;
  serializer : list chunk;
  idfield : string;
  collected_types : odict TypeDef;
  vocab : gmap string string
}.

Definition write (c : chunk) (g : PythonCodeGen) : PythonCodeGen :=
  mkGen (out g ++ [c]) (current_class_is_abstract g) (serializer g)
        (idfield g) (collected_types g) (vocab g).

Definition write_all (cs : list chunk) (g : PythonCodeGen) : PythonCodeGen :=
  mkGen (out g ++ cs) (current_class_is_abstract g) (serializer g)
        (idfield g) (collected_types g) (vocab g).

Definition serializer_write (c : chunk) (g : PythonCodeGen) : PythonCodeGen :=
  mkGen (out g) (current_class_is_abstract g) (serializer g ++ [c])
        (idfield g) (collected_types g) (vocab g).

Definition set_serializer (s : list chunk) (g : PythonCodeGen) : PythonCodeGen :=
  mkGen (out g) (current_class_is_abstract g) s
        (idfield g) (collected_types g) (vocab g).

Definition set_abstract (b : bool) (g : PythonCodeGen) : PythonCodeGen :=
  mkGen (out g) b (serializer g) (idfield g) (collected_types g) (vocab g).

Definition set_idfield (i : string) (g : PythonCodeGen) : PythonCodeGen :=
  mkGen (out g) (current_class_is_abstract g) (serializer g) i
        (collected_types g) (vocab g).

Definition set_collected_types (c : odict TypeDef) (g : PythonCodeGen)
  : PythonCodeGen :=
  mkGen (out g) (current_class_is_abstract g) (serializer g) (idfield g)
        c (vocab g).

Definition set_vocab (v : gmap string string) (g : PythonCodeGen)
  : PythonCodeGen :=
  mkGen (out g) (current_class_is_abstract g) (serializer g) (idfield g)
        (collected_types g) v.

(** [PythonCodeGen(out)]. *)
Definition new_gen : PythonCodeGen :=
  mkGen [] false [] EmptyString [] ∅.

(** Generator methods that can raise: state and error passing. *)
Definition Gen (A : Type) : Type :=
  PythonCodeGen -> gen_error + (A * PythonCodeGen).

Definition gret {A} (a : A) : Gen A := fun g => inr (a, g).

Definition graise {A} (e : gen_error) : Gen A := fun _ => inl e.

Definition gbind {A B} (m : Gen A) (k : A -> Gen B) : Gen B :=
  fun g => match m g with
           | inl e => inl e
           | inr (a, g') => k a g'
           end.

Notation "'let*' x ':=' m 'in' k" := (gbind m (fun x => k))
  (at level 10, x name, m at level 100, k at level 200).

(** Modelled from the spec: [declare_type] (codegen_base) is not among the
    sources.  "intern(candidate) -> TypeDef: returns the existing entry if
    one with the same canonical name exists, else registers and returns
    candidate." *)
Definition declare_type (declared_type : TypeDef) : Gen TypeDef :=
  fun g =>
    match odict_get (name declared_type) (collected_types g) with
    | Some existing => inr (existing, g)
    | None =>
        inr (declared_type,
             set_collected_types
               (collected_types g ++ [(name declared_type, declared_type)]) g)
    end.

(** Modelled from the spec: [add_vocab] (codegen_base) is not among the
    sources.  The vocabulary maps a term to an absolute URI and grows as
    enum symbols are discovered; "re-registering a term under a different
    URI is a compile-time error". *)
Definition add_vocab (term uri : string) : Gen unit :=
  fun g =>
    match vocab g !! term with
    | Some uri' =>
        if String.eqb uri uri' then inr (tt, g)
        else inl (SchemaException ("vocabulary term redefined: " +:+ term))
    | None => inr (tt, set_vocab (<[term := uri]> (vocab g)) g)
    end.

Definition dquote : string := String (ascii_of_nat 34) EmptyString.

Section Generator.

(** [schema.avro_name] and [schema.shortname] are imported from a module
    that is not among the sources: they stay parameters. *)
Variable avro_name : string -> string.
Variable shortname : string -> string.

Definition safe_name (n : string) : string :=
  let avn := avro_name n in
  if str_in avn ["class"; "in"] then avn +:+ "_" else avn.

(** [prologue]: the header and support code, then every primitive is
    declared. *)
Fixpoint declare_all (l : list TypeDef) : Gen unit :=
  match l with
  | [] => gret tt
  | t :: l' => let* _ := declare_type t in declare_all l'
  end.

Definition prologue : Gen unit :=
  fun g => declare_all (map snd prims) (write Blank (write Preamble g)).

Definition begin_class (classname : string) (extends : list string)
    (doc : string) (abstract : bool) (field_names : list string)
    (idfield_ : string) (optional_fields : list string)
    (g : PythonCodeGen) : PythonCodeGen :=
  let classname := safe_name classname in
  let ext := match extends with
             | [] => "Savable"
             | _ => join ", " (map safe_name extends)
             end in
  let g := write (ClassHeader classname ext) g in
  let g := if String.eqb doc EmptyString then g else write (DocString doc) g in
  let g := set_serializer [] g in
  let g := set_abstract abstract g in
  if abstract then write AbstractPass g
  else
    let required_field_names :=
      filter (fun f => negb (str_in f optional_fields) = true) field_names in
    let optional_field_names :=
      filter (fun f => str_in f optional_fields = true) field_names in
    let not_class := fun f : string => negb (String.eqb f "class") = true in
    let safe_inits :=
      map (fun f => (safe_name f, false)) (filter not_class required_field_names)
      ++ map (fun f => (safe_name f, true)) (filter not_class optional_field_names) in
    let g := write (InitMethod safe_inits) g in
    let field_inits :=
      map (fun n => if String.eqb n "class" then InitClass classname
                    else InitAttr (safe_name n)) field_names in
    let g := write_all [FieldInits field_inits; FromDocHeader classname] g in
    let g := set_idfield idfield_ g in
    let g := serializer_write SaveHeader g in
    if str_in "class" field_names
    then serializer_write (SaveClass classname) (write (ClassCheck classname) g)
    else g.

Definition end_class (classname : string) (field_names : list string)
    (g : PythonCodeGen) : PythonCodeGen :=
  if current_class_is_abstract g then g
  else
    let attrstr := join ", " (map (fun f => "`" +:+ f +:+ "`") field_names) in
    let g := write (ExtScan attrstr (safe_name classname)) g in
    let g := serializer_write SaveNamespaces g in
    let g := serializer_write SaveReturn g in
    let g := serializer_write (Attrs field_names) g in
    let safe_inits :=
      map safe_name
          (filter (fun f : string => negb (String.eqb f "class") = true)
                  field_names) in
    let g := write SnapshotOptions g in
    let g := write (ReturnCls safe_inits) g in
    let g := write_all (serializer g) g in
    write Blank g.

Definition declare_field (name_ : string) (fieldtype : TypeDef)
    (doc : string) (optional : bool) (g : PythonCodeGen) : PythonCodeGen :=
  if current_class_is_abstract g then g
  else if String.eqb (shortname name_) "class" then g
  else
    let g := write (LoadField optional (safe_name name_) (shortname name_)
                              (name fieldtype)) g in
    let baseurl :=
      if String.eqb name_ (idfield g) || String.eqb (idfield g) EmptyString
      then BaseUrl
      else SelfAttr (safe_name (idfield g)) in
    if is_uri fieldtype
    then serializer_write
           (SaveUri (safe_name name_) baseurl (scoped_id fieldtype)
                    (ref_scope fieldtype) (strip (shortname name_))) g
    else serializer_write
           (SaveField (safe_name name_) (shortname name_) baseurl) g.

Definition declare_id_field (name_ : string) (fieldtype : TypeDef)
    (doc : string) (optional : bool) (g : PythonCodeGen) : PythonCodeGen :=
  if current_class_is_abstract g then g
  else
    let g := declare_field name_ fieldtype doc true g in
    let opt := if optional then OptUuid (safe_name name_)
               else OptMissing (shortname name_) in
    write (IdDefault (safe_name name_) opt) g.

(** [add_vocab(shortname(sym), sym)] for every symbol of an enum. *)
Fixpoint add_vocab_symbols (syms : list string) : Gen unit :=
  match syms with
  | [] => gret tt
  | sym :: syms' =>
      let* _ := add_vocab (shortname sym) sym in add_vocab_symbols syms'
  end.

Definition union_of (sub : list TypeDef) : TypeDef :=
  TypeDef2 ("union_of_" +:+ join "_or_" (map name sub))
           ("_UnionLoader((" +:+ join ", " (map name sub) +:+ ",))").

Definition array_of (i : TypeDef) : TypeDef :=
  TypeDef2 ("array_of_" +:+ name i) ("_ArrayLoader(" +:+ name i +:+ ")").

Definition enum_loader (n : string) (syms : list string) : TypeDef :=
  TypeDef2 (safe_name n +:+ "Loader")
           ("_EnumLoader((" +:+ dquote
              +:+ join (dquote +:+ ", " +:+ dquote) (map safe_name syms)
              +:+ dquote +:+ ",))").

Definition record_loader (n : string) : TypeDef :=
  TypeDef2 (safe_name n +:+ "Loader")
           ("_RecordLoader(" +:+ safe_name n +:+ ")").

Fixpoint type_loader (type_declaration_ : type_declaration) : Gen TypeDef :=
  match type_declaration_ with
  | TSeq alternatives =>
      let* sub :=
        (fix each (l : list type_declaration) : Gen (list TypeDef) :=
           match l with
           | [] => gret []
           | i :: l' =>
               let* s := type_loader i in
               let* r := each l' in
               gret (s :: r)
           end) alternatives in
      declare_type (union_of sub)
  | TMap type_ items name_ symbols =>
      if str_in type_ ["array"; "https://w3id.org/cwl/salad#array"] then
        match items with
        | None => graise (KeyError "items")
        | Some it => let* i := type_loader it in declare_type (array_of i)
        end
      else if str_in type_ ["enum"; "https://w3id.org/cwl/salad#enum"] then
        match symbols with
        | None => graise (KeyError "symbols")
        | Some syms =>
            let* _ := add_vocab_symbols syms in
            match name_ with
            | None => graise (KeyError "name")
            | Some n => declare_type (enum_loader n syms)
            end
        end
      else if str_in type_ ["record"; "https://w3id.org/cwl/salad#record"] then
        match name_ with
        | None => graise (KeyError "name")
        | Some n => declare_type (record_loader n)
        end
      else graise (SchemaException ("wft " +:+ type_))
  | TStr s =>
      match odict_get s prims with
      | Some t => gret t
      | None =>
          fun g =>
            match odict_get (safe_name s +:+ "Loader") (collected_types g) with
            | Some t => inr (t, g)
            | None => inl (KeyError (safe_name s +:+ "Loader"))
            end
      end
  end.

(** [[self.type_loader(i) for i in l]]. *)
Fixpoint type_loader_each (l : list type_declaration) : Gen (list TypeDef) :=
  match l with
  | [] => gret []
  | i :: l' =>
      let* s := type_loader i in
      let* r := type_loader_each l' in
      gret (s :: r)
  end.

Definition uri_loader (inner : TypeDef) (scoped_id_ vocab_term : bool)
    (ref_scope_ : option Z) : Gen TypeDef :=
  declare_type
    (mkTypeDef
       ("uri_" +:+ name inner +:+ "_" +:+ fmt_bool scoped_id_ +:+ "_"
          +:+ fmt_bool vocab_term +:+ "_" +:+ fmt_opt_int ref_scope_)
       ("_URILoader(" +:+ name inner +:+ ", " +:+ fmt_bool scoped_id_ +:+ ", "
          +:+ fmt_bool vocab_term +:+ ", " +:+ fmt_opt_int ref_scope_ +:+ ")")
       true scoped_id_ ref_scope_).

Definition idmap_loader (field : string) (inner : TypeDef)
    (map_subject : string) (map_predicate : option string) : Gen TypeDef :=
  declare_type
    (TypeDef2
       ("idmap_" +:+ safe_name field +:+ "_" +:+ name inner)
       ("_IdMapLoader(" +:+ name inner +:+ ", '" +:+ map_subject +:+ "', '"
          +:+ fmt_opt_str map_predicate +:+ "')")).

Definition typedsl_loader (inner : TypeDef) (ref_scope_ : option Z)
  : Gen TypeDef :=
  declare_type
    (TypeDef2
       ("typedsl_" +:+ name inner +:+ "_" +:+ fmt_opt_int ref_scope_)
       ("_TypeDSLLoader(" +:+ name inner +:+ ", " +:+ fmt_opt_int ref_scope_
          +:+ ")")).

End Generator.

(** ** Part 3: running the emitted code *)

(** A loaded instance: the attributes set by [__init__]. *)
Record Instance (LoadingOptions : Type) : Type := mkInstance {
  inst_attrs : odict value;
  inst_extension_fields : odict value;
  inst_loadingOptions : LoadingOptions;
  inst_original_doc : option (odict value)
}.
Arguments mkInstance {LoadingOptions}.
Arguments inst_attrs {LoadingOptions}.
Arguments inst_extension_fields {LoadingOptions}.
Arguments inst_loadingOptions {LoadingOptions}.
Arguments inst_original_doc {LoadingOptions}.

(** Python errors other than [ValidationException]. *)
Inductive py_error : Type :=
| UnboundLocalError (var : string)
| TypeError (msg : string)
| AttributeError (attr : string).

(** One call of [load_field], as the emitted code makes it. *)
Record load_call : Type := mkCall {
  call_raw : value;
  call_loader : string;
  call_baseuri : value
}.

(** What the emitted class statements leave for [fromDoc]: the signature
    and body of [__init__], and the class attribute [attrs]. *)
Record class_env : Type := mkClassEnv {
  ce_params : list (string * bool);
  ce_inits : list field_init;
  ce_attrs : list string
}.

Fixpoint find_params (u : list chunk) : list (string * bool) :=
  match u with
  | [] => []
  | InitMethod ps :: _ => ps
  | _ :: u' => find_params u'
  end.

Fixpoint find_inits (u : list chunk) : list field_init :=
  match u with
  | [] => []
  | FieldInits is_ :: _ => is_
  | _ :: u' => find_inits u'
  end.

Fixpoint find_attrs (u : list chunk) : list string :=
  match u with
  | [] => []
  | Attrs a :: _ => a
  | _ :: u' => find_attrs u'
  end.

Definition is_return (c : chunk) : bool :=
  match c with ReturnCls _ => true | _ => false end.

Definition has_attrs (c : chunk) : bool :=
  match c with Attrs _ => true | _ => false end.

Definition class_env_of (u : list chunk) : class_env :=
  mkClassEnv (find_params u) (find_inits u) (find_attrs u).

(** The statements of the emitted [fromDoc], in the order written. *)
Definition is_fromDoc_chunk (c : chunk) : bool :=
  match c with
  | FromDocHeader _ | ClassCheck _ | LoadField _ _ _ _ | IdDefault _ _
  | ExtScan _ _ | SnapshotOptions | ReturnCls _ => true
  | _ => false
  end.

Definition fromDoc_body (u : list chunk) : list chunk :=
  List.filter is_fromDoc_chunk u.

(** The statements of the emitted [save]. *)
Definition is_save_chunk (c : chunk) : bool :=
  match c with
  | SaveHeader | SaveClass _ | SaveUri _ _ _ _ _ | SaveField _ _ _
  | SaveNamespaces | SaveReturn => true
  | _ => false
  end.

Definition save_body (u : list chunk) : list chunk :=
  List.filter is_save_chunk u.

(** Binding the positional arguments of [cls(...)] to the parameters of
    [__init__] after [self]; [extension_fields] and [loadingOptions] are
    passed by keyword. *)
Fixpoint bind_params (params : list (string * bool)) (args : list value)
  : py_error + odict value :=
  match params, args with
  | [], [] => inr []
  | [], _ :: _ => inl (TypeError "__init__() takes fewer positional arguments")
  | (p, has_default) :: ps, [] =>
      if has_default then
        match bind_params ps [] with
        | inr b => inr ((p, VNone) :: b)
        | inl e => inl e
        end
      else inl (TypeError ("__init__() missing required argument: " +:+ p))
  | (p, _) :: ps, a :: args' =>
      match bind_params ps args' with
      | inr b => inr ((p, a) :: b)
      | inl e => inl e
      end
  end.

(** The body of [__init__]: one assignment per field name. *)
Fixpoint run_inits (inits : list field_init) (bound : odict value)
    (self : odict value) : py_error + odict value :=
  match inits with
  | [] => inr self
  | InitClass c :: inits' =>
      run_inits inits' bound (odict_set "class_" (VStr c) self)
  | InitAttr a :: inits' =>
      match odict_get a bound with
      | Some v => run_inits inits' bound (odict_set a v self)
      | None => inl (UnboundLocalError a)
      end
  end.

(** The body of the emitted [fromDoc] is one Python function with one
    namespace: the variable of a field (its safe name) lives beside the
    parameters [cls], [doc], [baseuri], [loadingOptions], [docRoot] and
    beside the variables that the templates use themselves.  A field
    variable named [baseuri], [docRoot] or [doc] is followed exactly (see
    [assign] and [lookup_var]).  The names below hold values that are not
    document values (the class, the error list, the loading options, the
    copy of the input, the loop variables, the caught exception, and the
    module-level functions that the templates call): the model does not
    follow a statement that uses one of them as a field variable, and ends
    the run there with [Outside]. *)
Definition template_names : list string :=
  ["cls"; "_doc"; "_errors__"; "loadingOptions"; "extension_fields";
   "k"; "ex"; "e"].

Definition module_names : list string :=
  ["copy"; "hasattr"; "ValidationException"; "load_field"; "SourceLine";
   "str"; "_uuid__"; "yaml"; "expand_url"].

Definition unmodelled (x : string) : bool :=
  str_in x (template_names ++ module_names).

(** A variable name that is neither a parameter nor a name the templates
    use: such a variable is a local variable of its own. *)
Definition ordinary (x : string) : bool :=
  negb (str_in x ["baseuri"; "docRoot"; "doc"]) && negb (unmodelled x).

Section Runtime.

(** The support module that the emitted code runs against
    (python_codegen_support) is not among the sources: its entry points are
    parameters of the semantics. *)
Variable LoadingOptions : Type.
(** [load_field(val, fieldtype, baseuri, loadingOptions)]; the loader is the
    module-level variable named by [fieldtype]. *)
Variable load_field :
  value -> string -> value -> LoadingOptions -> ValidationException + value.
(** [expand_url(url, base_url, loadingOptions, scoped_id, vocab_term)]. *)
Variable expand_url :
  string -> string -> LoadingOptions -> bool -> bool -> string.
(** [save_relative_uri(uri, base_url, scoped_id, ref_scope, relative_uris)]. *)
Variable save_relative_uri :
  value -> value -> bool -> option Z -> bool -> value.
(** [save(val, top, base_url, relative_uris)]. *)
Variable save : value -> bool -> value -> bool -> value.
(** [prefix_url(url, loadingOptions.vocab)] and [loadingOptions.namespaces]. *)
Variable prefix_url : string -> LoadingOptions -> string.
Variable namespaces : LoadingOptions -> value.

(** The local state of one call of [fromDoc].  [calls] is a log of the
    [load_field] calls made so far; [snapshot] is the [original_doc] of the
    copied loading options. *)
Record frame : Type := mkFrame {
  _doc : odict value;
  baseuri : value;
  loadingOptions : LoadingOptions;
  docRoot : option value;
  locals : gmap string value;
  _errors__ : list ValidationException;
  extension_fields : odict value;
  snapshot : option (odict value);
  calls : list load_call
}.

Inductive outcome : Type :=
| Next (f : frame)                              (* falls through *)
| Raise (e : ValidationException) (f : frame)
| Crash (e : py_error) (f : frame)
| Return (i : Instance LoadingOptions) (f : frame)
| Outside (x : string) (f : frame).             (* not followed, see above *)

Definition set_local (x : string) (v : value) (f : frame) : frame :=
  mkFrame (_doc f) (baseuri f) (loadingOptions f) (docRoot f)
          (<[x := v]> (locals f)) (_errors__ f) (extension_fields f)
          (snapshot f) (calls f).

Definition set_baseuri (b : value) (f : frame) : frame :=
  mkFrame (_doc f) b (loadingOptions f) (docRoot f) (locals f) (_errors__ f)
          (extension_fields f) (snapshot f) (calls f).

Definition set_errors (es : list ValidationException) (f : frame) : frame :=
  mkFrame (_doc f) (baseuri f) (loadingOptions f) (docRoot f) (locals f) es
          (extension_fields f) (snapshot f) (calls f).

Definition set_extension_fields (x : odict value) (f : frame) : frame :=
  mkFrame (_doc f) (baseuri f) (loadingOptions f) (docRoot f) (locals f)
          (_errors__ f) x (snapshot f) (calls f).

Definition set_snapshot (d : odict value) (f : frame) : frame :=
  mkFrame (_doc f) (baseuri f) (loadingOptions f) (docRoot f) (locals f)
          (_errors__ f) (extension_fields f) (Some d) (calls f).

Definition log_call (c : load_call) (f : frame) : frame :=
  mkFrame (_doc f) (baseuri f) (loadingOptions f) (docRoot f) (locals f)
          (_errors__ f) (extension_fields f) (snapshot f) (calls f ++ [c]).

Definition set_docRoot (r : option value) (f : frame) : frame :=
  mkFrame (_doc f) (baseuri f) (loadingOptions f) r (locals f) (_errors__ f)
          (extension_fields f) (snapshot f) (calls f).

(** [x = v] for a field variable [x]: the parameters [baseuri] and
    [docRoot] are the frame's cells of these names ([docRoot] is [None]
    there when it holds Python's [None]). *)
Definition assign (x : string) (v : value) (f : frame) : frame :=
  if String.eqb x "baseuri" then set_baseuri v f
  else if String.eqb x "docRoot"
  then set_docRoot (match v with VNone => None | _ => Some v end) f
  else set_local x v f.

(** Reading the variable [x]: the parameters are always bound ([doc] to
    the input until a field variable of that name is assigned), another
    variable only once it has been assigned. *)
Definition lookup_var (x : string) (f : frame) : option value :=
  if String.eqb x "baseuri" then Some (baseuri f)
  else if String.eqb x "docRoot" then Some (default VNone (docRoot f))
  else if String.eqb x "doc"
  then Some (default (VMap (_doc f)) (locals f !! x))
  else locals f !! x.

(** [_doc.get(k)]. *)
Definition doc_get (k : string) (d : odict value) : value :=
  default VNone (odict_get k d).

Definition field_error (d : odict value) (fieldname : string)
    (e : ValidationException) : ValidationException :=
  VExc ("the `" +:+ fieldname +:+ "` field is not valid because:")
       (Some (mkSourceLine d fieldname)) [e].

(** The [try: ... except ValidationException] of a field. *)
Definition try_load (safename fieldname fieldtype : string) (f : frame)
  : frame :=
  let raw := doc_get fieldname (_doc f) in
  let f := log_call (mkCall raw fieldtype (baseuri f)) f in
  match load_field raw fieldtype (baseuri f) (loadingOptions f) with
  | inr v => assign safename v f
  | inl e => set_errors (_errors__ f ++ [field_error (_doc f) fieldname e]) f
  end.

Definition invalid_field (d : odict value) (attrstr k : string)
  : ValidationException :=
  VExc ("invalid field `" +:+ k +:+ "`, expected one of: " +:+ attrstr)
       (Some (mkSourceLine d k)) [].

(** [for k in _doc.keys(): ...], with its [break]. *)
Fixpoint scan_keys (attrs : list string) (attrstr : string)
    (d : odict value) (lo : LoadingOptions) (keys : list string)
    (ext : odict value) (errs : list ValidationException)
  : odict value * list ValidationException :=
  match keys with
  | [] => (ext, errs)
  | k :: keys' =>
      if str_in k attrs then scan_keys attrs attrstr d lo keys' ext errs
      else if has_char ":" k then
        let ex := expand_url k EmptyString lo false false in
        scan_keys attrs attrstr d lo keys' (odict_set ex (doc_get k d) ext) errs
      else (ext, errs ++ [invalid_field d attrstr k])
  end.

(** Reading the variables named in [cls(a, b, ...)]. *)
Fixpoint read_vars (names : list string) (f : frame)
  : py_error + list value :=
  match names with
  | [] => inr []
  | x :: names' =>
      match lookup_var x f with
      | None => inl (UnboundLocalError x)
      | Some v =>
          match read_vars names' f with
          | inr vs => inr (v :: vs)
          | inl e => inl e
          end
      end
  end.

(** [cls(args, extension_fields=..., loadingOptions=...)]. *)
Definition construct (env : class_env) (args : list value) (f : frame)
  : py_error + Instance LoadingOptions :=
  match bind_params (ce_params env) args with
  | inl e => inl e
  | inr bound =>
      match run_inits (ce_inits env) bound [] with
      | inl e => inl e
      | inr self =>
          inr (mkInstance self (extension_fields f) (loadingOptions f)
                          (snapshot f))
      end
  end.

(** [baseuri = <safename>]. *)
Definition base_from (safename : string) (f : frame) : outcome :=
  match lookup_var safename f with
  | Some v => Next (set_baseuri v f)
  | None => Crash (UnboundLocalError safename) f
  end.

(** One statement of [fromDoc].  [uuid] is what [str(_uuid__.uuid4())]
    evaluates to in this call. *)
Definition exec_chunk (env : class_env) (uuid : string) (c : chunk)
    (f : frame) : outcome :=
  match c with
  | FromDocHeader _ => Next (set_errors [] f)
  | ClassCheck class_ =>
      match doc_get "class" (_doc f) with
      | VStr s =>
          if String.eqb s class_ then Next f
          else Raise (VExc ("Not a " +:+ class_) None []) f
      | _ => Raise (VExc ("Not a " +:+ class_) None []) f
      end
  | LoadField optional safename fieldname fieldtype =>
      if unmodelled safename then Outside safename f
      else if optional then
        if odict_mem fieldname (_doc f)
        then Next (try_load safename fieldname fieldtype f)
        else Next (assign safename VNone f)
      else Next (try_load safename fieldname fieldtype f)
  | IdDefault safename opt =>
      if unmodelled safename then Outside safename f
      else
        match lookup_var safename f with
        | None => Crash (UnboundLocalError safename) f
        | Some VNone =>
            match docRoot f with
            | Some r => base_from safename (assign safename r f)
            | None =>
                match opt with
                | OptUuid x =>
                    base_from safename (assign x (VStr ("_:" +:+ uuid)) f)
                | OptMissing fieldname =>
                    Raise (VExc ("Missing " +:+ fieldname) None []) f
                end
            end
        | Some v => Next (set_baseuri v f)
        end
  | ExtScan attrstr class_ =>
      let '(ext, errs) :=
        scan_keys (ce_attrs env) attrstr (_doc f) (loadingOptions f)
                  (odict_keys (_doc f)) [] (_errors__ f) in
      let f := set_errors errs (set_extension_fields ext f) in
      match errs with
      | [] => Next f
      | _ => Raise (VExc ("Trying '" +:+ class_ +:+ "'") None errs) f
      end
  | SnapshotOptions => Next (set_snapshot (_doc f) f)
  | ReturnCls safe_inits =>
      match List.find unmodelled safe_inits with
      | Some x => Outside x f
      | None =>
          match read_vars safe_inits f with
          | inl e => Crash e f
          | inr args =>
              match construct env args f with
              | inl e => Crash e f
              | inr i => Return i f
              end
          end
      end
  | _ => Next f
  end.

Fixpoint exec_chunks (env : class_env) (uuid : string) (cs : list chunk)
    (f : frame) : outcome :=
  match cs with
  | [] => Next f
  | c :: cs' =>
      match exec_chunk env uuid c f with
      | Next f' => exec_chunks env uuid cs' f'
      | o => o
      end
  end.

(** The frame in which the body of [fromDoc] starts. *)
Definition entry (doc : odict value) (b : string) (lo : LoadingOptions)
    (root : option string) : frame :=
  mkFrame doc (VStr b) lo (VStr <$> root) ∅ [] [] None [].

(** [cls.fromDoc(doc, baseuri, loadingOptions, docRoot)] of the class
    emitted as the chunks [u]. *)
Definition fromDoc (u : list chunk) (uuid : string) (doc : odict value)
    (baseuri_ : string) (lo : LoadingOptions) (docRoot_ : option string)
  : outcome :=
  exec_chunks (class_env_of u) uuid (fromDoc_body u)
    (mkFrame doc (VStr baseuri_) lo (VStr <$> docRoot_) ∅ [] [] None []).

Definition outcome_frame (o : outcome) : frame :=
  match o with
  | Next f | Raise _ f | Crash _ f | Return _ f | Outside _ f => f
  end.

(** Two frames of one call that differ at most in the local variables,
    the error list and the call log. *)
Definition same_call (f f' : frame) : Prop :=
  _doc f' = _doc f /\ baseuri f' = baseuri f
  /\ loadingOptions f' = loadingOptions f /\ docRoot f' = docRoot f
  /\ extension_fields f' = extension_fields f /\ snapshot f' = snapshot f.

(** *** The emitted [save] *)

Inductive save_outcome : Type :=
| SNext (r : odict value)
| SReturn (r : odict value)
| SCrash (e : py_error).

(** [self.<a>]. *)
Definition self_attr (self : Instance LoadingOptions) (a : string)
  : py_error + value :=
  match odict_get a (inst_attrs self) with
  | Some v => inr v
  | None => inl (AttributeError a)
  end.

Definition eval_base (b : base_expr) (self : Instance LoadingOptions)
    (base_url : value) : py_error + value :=
  match b with
  | BaseUrl => inr base_url
  | SelfAttr a => self_attr self a
  end.

(** [for ef in self.extension_fields: r[prefix_url(ef, vocab)] = ...]. *)
Definition save_extension_fields (self : Instance LoadingOptions)
  : odict value :=
  fold_left
    (fun r ef =>
       odict_set (prefix_url ef (inst_loadingOptions self))
                 (doc_get ef (inst_extension_fields self)) r)
    (odict_keys (inst_extension_fields self)) [].

Definition exec_save_chunk (self : Instance LoadingOptions) (top : bool)
    (base_url : value) (relative_uris : bool) (c : chunk) (r : odict value)
  : save_outcome :=
  match c with
  | SaveHeader => SNext (save_extension_fields self)
  | SaveClass class_ => SNext (odict_set "class" (VStr class_) r)
  | SaveUri safename baseurl scoped refscope fieldname =>
      match self_attr self safename with
      | inl e => SCrash e
      | inr VNone => SNext r
      | inr v =>
          match eval_base baseurl self base_url with
          | inl e => SCrash e
          | inr b =>
              let u := save_relative_uri v b scoped refscope relative_uris in
              if truthy u then SNext (odict_set fieldname u r) else SNext r
          end
      end
  | SaveField safename fieldname baseurl =>
      match self_attr self safename with
      | inl e => SCrash e
      | inr VNone => SNext r
      | inr v =>
          match eval_base baseurl self base_url with
          | inl e => SCrash e
          | inr b => SNext (odict_set fieldname (save v false b relative_uris) r)
          end
      end
  | SaveNamespaces =>
      if top && truthy (namespaces (inst_loadingOptions self))
      then SNext (odict_set "$namespaces"
                            (namespaces (inst_loadingOptions self)) r)
      else SNext r
  | SaveReturn => SReturn r
  | _ => SNext r
  end.

Fixpoint exec_save_chunks (self : Instance LoadingOptions) (top : bool)
    (base_url : value) (relative_uris : bool) (cs : list chunk)
    (r : odict value) : save_outcome :=
  match cs with
  | [] => SNext r
  | c :: cs' =>
      match exec_save_chunk self top base_url relative_uris c r with
      | SNext r' => exec_save_chunks self top base_url relative_uris cs' r'
      | o => o
      end
  end.

(** [self.save(top, base_url, relative_uris)] of the class emitted as the
    chunks [u]. *)
Definition run_save (u : list chunk) (self : Instance LoadingOptions)
    (top : bool) (base_url : string) (relative_uris : bool) : save_outcome :=
  exec_save_chunks self top (VStr base_url) relative_uris (save_body u) [].

End Runtime.

Arguments Next {LoadingOptions}.
Arguments Raise {LoadingOptions}.
Arguments Crash {LoadingOptions}.
Arguments Return {LoadingOptions}.
Arguments Outside {LoadingOptions}.
Arguments mkFrame {LoadingOptions}.
Arguments _doc {LoadingOptions}.
Arguments baseuri {LoadingOptions}.
Arguments loadingOptions {LoadingOptions}.
Arguments docRoot {LoadingOptions}.
Arguments locals {LoadingOptions}.
Arguments _errors__ {LoadingOptions}.
Arguments extension_fields {LoadingOptions}.
Arguments snapshot {LoadingOptions}.
Arguments calls {LoadingOptions}.
Arguments outcome_frame {LoadingOptions}.
Arguments same_call {LoadingOptions}.
Arguments entry {LoadingOptions}.

(** ** The unit of one record type *)

(** A field as the generator receives it. *)
Record field_decl : Type := mkField {
  f_name : string;
  f_type : TypeDef;
  f_doc : string;
  f_optional : bool
}.

(** A resolved record type: the arguments of [begin_class], the id field
    (if any) and the other fields in declaration order. *)
Record record_decl : Type := mkRecord {
  r_name : string;
  r_extends : list string;
  r_doc : string;
  r_abstract : bool;
  r_field_names : list string;
  r_optional_fields : list string;
  r_idfield : option field_decl;
  r_fields : list field_decl
}.

Section Units.

Variable avro_name : string -> string.
Variable shortname : string -> string.

Definition declare_fields (fs : list field_decl) (g : PythonCodeGen)
  : PythonCodeGen :=
  fold_left
    (fun g fd => declare_field avro_name shortname (f_name fd) (f_type fd) (f_doc fd)
                               (f_optional fd) g)
    fs g.

(** Modelled from the spec: the driver that calls the generator for every
    record type (codegen) is not among the sources.  Section 4.3: the class
    discriminator, then the id field, then "every other declared field, in
    declaration order", then the undeclared keys. *)
Definition gen_class (r : record_decl) (g : PythonCodeGen) : PythonCodeGen :=
  let g := begin_class avro_name (r_name r) (r_extends r) (r_doc r)
             (r_abstract r) (r_field_names r)
             (match r_idfield r with Some i => f_name i | None => EmptyString end)
             (r_optional_fields r) g in
  let g := match r_idfield r with
           | Some i => declare_id_field avro_name shortname (f_name i)
                         (f_type i) (f_doc i) (f_optional i) g
           | None => g
           end in
  let g := declare_fields (r_fields r) g in
  end_class avro_name (r_name r) (r_field_names r) g.

(** The chunks emitted for one record type. *)
Definition class_unit (r : record_decl) : list chunk :=
  out (gen_class r new_gen).

(** What [declare_field] writes to [out] and to the serializer. *)
Definition load_chunks (fd : field_decl) : list chunk :=
  if String.eqb (shortname (f_name fd)) "class" then []
  else [LoadField (f_optional fd) (safe_name avro_name (f_name fd))
                  (shortname (f_name fd)) (name (f_type fd))].

Definition field_base (idf : string) (n : string) : base_expr :=
  if String.eqb n idf || String.eqb idf EmptyString then BaseUrl
  else SelfAttr (safe_name avro_name idf).

Definition save_chunks (idf : string) (fd : field_decl) : list chunk :=
  if String.eqb (shortname (f_name fd)) "class" then []
  else if is_uri (f_type fd)
  then [SaveUri (safe_name avro_name (f_name fd)) (field_base idf (f_name fd))
                (scoped_id (f_type fd)) (ref_scope (f_type fd))
                (strip (shortname (f_name fd)))]
  else [SaveField (safe_name avro_name (f_name fd)) (shortname (f_name fd))
                  (field_base idf (f_name fd))].

(** The pieces of a unit, as the four generator methods write them. *)
Definition id_name (r : record_decl) : string :=
  match r_idfield r with Some i => f_name i | None => EmptyString end.

Definition init_params (r : record_decl) : list (string * bool) :=
  let not_class := fun f : string => negb (String.eqb f "class") = true in
  map (fun f => (safe_name avro_name f, false))
      (filter not_class
         (filter (fun f => negb (str_in f (r_optional_fields r)) = true)
                 (r_field_names r)))
  ++ map (fun f => (safe_name avro_name f, true))
      (filter not_class
         (filter (fun f => str_in f (r_optional_fields r) = true)
                 (r_field_names r))).

Definition init_body (r : record_decl) : list field_init :=
  map (fun n => if String.eqb n "class"
                then InitClass (safe_name avro_name (r_name r))
                else InitAttr (safe_name avro_name n))
      (r_field_names r).

Definition class_chunks (r : record_decl) : list chunk :=
  [ClassHeader (safe_name avro_name (r_name r))
     (match r_extends r with
      | [] => "Savable"
      | _ => join ", " (map (safe_name avro_name) (r_extends r))
      end)]
  ++ (if String.eqb (r_doc r) EmptyString then [] else [DocString (r_doc r)])
  ++ [InitMethod (init_params r); FieldInits (init_body r)].

Definition class_check (r : record_decl) : list chunk :=
  if str_in "class" (r_field_names r)
  then [ClassCheck (safe_name avro_name (r_name r))] else [].

Definition id_chunks (r : record_decl) : list chunk :=
  match r_idfield r with
  | None => []
  | Some i =>
      load_chunks (mkField (f_name i) (f_type i) (f_doc i) true)
      ++ [IdDefault (safe_name avro_name (f_name i))
            (if f_optional i then OptUuid (safe_name avro_name (f_name i))
             else OptMissing (shortname (f_name i)))]
  end.

Definition prelude_chunks (r : record_decl) : list chunk :=
  [FromDocHeader (safe_name avro_name (r_name r))]
  ++ class_check r ++ id_chunks r.

Definition attrstr_of (r : record_decl) : string :=
  join ", " (map (fun f => "`" +:+ f +:+ "`") (r_field_names r)).

Definition return_args (r : record_decl) : list string :=
  map (safe_name avro_name)
      (filter (fun f : string => negb (String.eqb f "class") = true)
              (r_field_names r)).

(** The parameters of [__init__] come in the order in which [cls(...)]
    passes its arguments: no optional field precedes a required one. *)
Definition aligned (r : record_decl) : Prop :=
  map fst (init_params r) = return_args r.

(** The variables of the record's fields, and the names that [cls(...)]
    reads, are ordinary variables: none is a parameter of [fromDoc] or a
    name that the templates use. *)
Definition plain_fields (r : record_decl) : Prop :=
  (forall i, r_idfield r = Some i ->
             ordinary (safe_name avro_name (f_name i)) = true)
  /\ (forall fd, In fd (r_fields r) ->
                 ordinary (safe_name avro_name (f_name fd)) = true)
  /\ (forall n, In n (r_field_names r) -> String.eqb n "class" = false ->
                ordinary (safe_name avro_name n) = true).

Definition epilogue_chunks (r : record_decl) : list chunk :=
  [ExtScan (join ", " (map (fun f => "`" +:+ f +:+ "`") (r_field_names r)))
           (safe_name avro_name (r_name r));
   SnapshotOptions;
   ReturnCls (return_args r)].

Definition save_chunks_of (r : record_decl) : list chunk :=
  [SaveHeader]
  ++ (if str_in "class" (r_field_names r)
      then [SaveClass (safe_name avro_name (r_name r))] else [])
  ++ match r_idfield r with
     | Some i => save_chunks (id_name r) i
     | None => []
     end
  ++ flat_map (save_chunks (id_name r)) (r_fields r)
  ++ [SaveNamespaces; SaveReturn; Attrs (r_field_names r)].

End Units.

(** ** What the claims speak of *)

Section Attempts.

Variable shortname : string -> string.
Variable LoadingOptions : Type.
Variable load_field :
  value -> string -> value -> LoadingOptions -> ValidationException + value.

(** A declared field is attempted when it is not the class discriminator
    and is required or present in the input. *)
Definition attempted (d : odict value) (fd : field_decl) : bool :=
  negb (String.eqb (shortname (f_name fd)) "class")
  && (negb (f_optional fd) || odict_mem (shortname (f_name fd)) d).

(** The loader call of an attempted field. *)
Definition field_calls (d : odict value) (b : value) (fd : field_decl)
  : list load_call :=
  if attempted d fd
  then [mkCall (doc_get (shortname (f_name fd)) d) (name (f_type fd)) b]
  else [].

(** The error a field contributes on its own: its loader's failure,
    wrapped with the field's name. *)
Definition field_failures (d : odict value) (b : value) (lo : LoadingOptions)
    (fd : field_decl) : list ValidationException :=
  if attempted d fd then
    match load_field (doc_get (shortname (f_name fd)) d) (name (f_type fd)) b lo with
    | inl e => [field_error d (shortname (f_name fd)) e]
    | inr _ => []
    end
  else [].

End Attempts.

Section Undeclared.

Variable LoadingOptions : Type.
Variable expand_url :
  string -> string -> LoadingOptions -> bool -> bool -> string.

(** A key that is not a declared field of the record. *)
Definition undeclared (attrs : list string) (k : string) : bool :=
  negb (str_in k attrs).

(** An undeclared key without the namespace separator. *)
Definition bare (attrs : list string) (k : string) : bool :=
  undeclared attrs k && negb (has_char ":" k).

(** The keys before the first bare one: those the scan gets past. *)
Fixpoint examined (attrs : list string) (keys : list string) : list string :=
  match keys with
  | [] => []
  | k :: keys' => if bare attrs k then [] else k :: examined attrs keys'
  end.

Definition first_bare (attrs : list string) (keys : list string)
  : option string :=
  List.find (bare attrs) keys.

(** An undeclared key, expanded and stored with its value. *)
Definition store_extension (attrs : list string) (d : odict value)
    (lo : LoadingOptions) (ext : odict value) (k : string) : odict value :=
  if undeclared attrs k
  then odict_set (expand_url k EmptyString lo false false) (doc_get k d) ext
  else ext.

Definition invalid_of (attrs : list string) (attrstr : string)
    (d : odict value) (keys : list string) : list ValidationException :=
  match first_bare attrs keys with
  | Some k => [invalid_field d attrstr k]
  | None => []
  end.

End Undeclared.

(** ** The registry *)

(** Every entry is stored under its own canonical name, and no name is
    stored twice. *)
Definition registry_wf (g : PythonCodeGen) : Prop :=
  (forall k t, odict_get k (collected_types g) = Some t -> name t = k)
  /\ NoDup (odict_keys (collected_types g)).

(** The generator after [prologue]. *)
Definition initial_gen : PythonCodeGen :=
  match prologue new_gen with
  | inr (_, g) => g
  | inl _ => new_gen
  end.

(** The primitives have been declared, as [prologue] does. *)
Definition prims_registered (g : PythonCodeGen) : Prop :=
  forall u p, In (u, p) prims ->
    odict_get (name p) (collected_types g) = Some p.

(** A later state of the generator: what was registered stays registered. *)
Definition extends (g g' : PythonCodeGen) : Prop :=
  (forall k t, odict_get k (collected_types g) = Some t ->
               odict_get k (collected_types g') = Some t)
  /\ (forall k u, vocab g !! k = Some u -> vocab g' !! k = Some u).

(** A run of a generator method that only adds to the registry and the
    vocabulary, and that gives the same result again in every later state. *)
Definition stable_run {A} (m : Gen A) (g : PythonCodeGen) (a : A)
    (g' : PythonCodeGen) : Prop :=
  extends g g'
  /\ (registry_wf g -> registry_wf g')
  /\ (forall g2, extends g' g2 -> m g2 = inr (a, g2)).

(** The descriptor is the registry's entry for its own name. *)
Definition registered (t : TypeDef) (g : PythonCodeGen) : Prop :=
  odict_get (name t) (collected_types g) = Some t.

(** ** A small schema and a small support module, for concrete runs *)

Module Demo.

(** Names that are already short. *)
Definition avro_name (s : string) : string := s.
Definition shortname (s : string) : string := s.

(** A loader that accepts strings only, whatever its name. *)
Definition load_field (raw : value) (loader : string) (b : value) (lo : unit)
  : ValidationException + value :=
  match raw with
  | VStr s => inr (VStr s)
  | _ => inl (VExc ("Expected a " +:+ loader) None [])
  end.

Definition expand_url (url base : string) (lo : unit) (scoped vocab : bool)
  : string := url.

(** A compaction that shows the base it was given. *)
Definition save_relative_uri (uri base : value) (scoped : bool)
    (refscope : option Z) (relative : bool) : value :=
  VList [uri; base].

Definition save (v : value) (top : bool) (base : value) (relative : bool)
  : value := VList [v; base].

Definition prefix_url (url : string) (lo : unit) : string := url.

Definition namespaces (lo : unit) : value := VNone.

Definition strtype : TypeDef :=
  TypeDef2 "strtype" "_PrimitiveLoader((str, str))".

Definition uri_strtype : TypeDef :=
  mkTypeDef "uri_strtype_True_False_None"
            "_URILoader(strtype, True, False, None)" true true None.

(** An optional field declared before a required one. *)
Definition Pair : record_decl :=
  mkRecord "Pair" [] EmptyString false ["a"; "b"] ["a"] None
    [mkField "a" strtype EmptyString true;
     mkField "b" strtype EmptyString false].

(** A class discriminator, an optional id, a reference and a label. *)
Definition Node : record_decl :=
  mkRecord "Node" [] EmptyString false ["class"; "id"; "ref"; "label"]
    ["id"; "label"]
    (Some (mkField "id" uri_strtype EmptyString true))
    [mkField "class" strtype EmptyString false;
     mkField "ref" uri_strtype EmptyString false;
     mkField "label" strtype EmptyString true].

(** The same with a required id. *)
Definition Named : record_decl :=
  mkRecord "Named" [] EmptyString false ["id"; "label"] ["label"]
    (Some (mkField "id" uri_strtype EmptyString false))
    [mkField "label" strtype EmptyString true].

(** An id field whose variable is the parameter [docRoot]. *)
Definition Rooted : record_decl :=
  mkRecord "Rooted" [] EmptyString false ["docRoot"; "label"] ["label"]
    (Some (mkField "docRoot" uri_strtype EmptyString false))
    [mkField "label" strtype EmptyString true].

(** A field whose variable is the parameter [baseuri]. *)
Definition Based : record_decl :=
  mkRecord "Based" [] EmptyString false ["id"; "baseuri"; "label"]
    ["baseuri"; "label"]
    (Some (mkField "id" uri_strtype EmptyString false))
    [mkField "baseuri" strtype EmptyString true;
     mkField "label" strtype EmptyString true].

(** An expansion that resolves the prefix [ex:] to [http://e/]. *)
Definition expand_ex (url base : string) (lo : unit) (scoped vocab : bool)
  : string :=
  if String.prefix "ex:" url
  then "http://e/" +:+ String.substring 3 (String.length url - 3) url
  else url.

Definition xsd_string : type_declaration :=
  TStr "http://www.w3.org/2001/XMLSchema#string".
Definition xsd_int : type_declaration :=
  TStr "http://www.w3.org/2001/XMLSchema#int".
Definition xsd_long : type_declaration :=
  TStr "http://www.w3.org/2001/XMLSchema#long".

(** Two record types; the name of the second contains the separator of
    union names. *)
Definition rec_x : type_declaration :=
  TMap "record" None (Some "x") None.
Definition rec_y : type_declaration :=
  TMap "record" None (Some "xLoader_or_x") None.

Definition compile (d : type_declaration) : Gen TypeDef :=
  type_loader avro_name shortname d.

Definition inttype : TypeDef := TypeDef2 "inttype" "_PrimitiveLoader(int)".

(** A generator in the middle of a class whose id field is [id]. *)
Definition in_class : PythonCodeGen := set_idfield "id" new_gen.

Definition load (r : record_decl) (uuid : string) (doc : odict value)
    (b : string) (root : option string) : outcome unit :=
  fromDoc unit load_field expand_url (class_unit avro_name shortname r)
               uuid doc b tt root.

End Demo.

Module DemoSave.

(** A loaded [Node]. *)
Definition node : Instance unit :=
  mkInstance
    [("class_", VStr "Node"); ("id", VStr "http://x/#a");
     ("ref", VStr "http://x/#a/b"); ("label", VNone)]
    [] tt None.

Definition save_node (base_url : string) : save_outcome :=
  run_save unit Demo.save_relative_uri Demo.save Demo.prefix_url
           Demo.namespaces
           (class_unit Demo.avro_name Demo.shortname Demo.Node)
           node false base_url true.

End DemoSave.

(** ** Part 4: properties *)

(** *** The shape of a unit *)

Section UnitShape.

Variable avro_name : string -> string.
Variable shortname : string -> string.

Lemma declare_field_emits (fd : field_decl) (o : bool) (g : PythonCodeGen) :
  current_class_is_abstract g = false ->
  declare_field avro_name shortname (f_name fd) (f_type fd) (f_doc fd) o g =
  mkGen (out g
         ++ load_chunks avro_name shortname
              (mkField (f_name fd) (f_type fd) (f_doc fd) o))
        false
        (serializer g ++ save_chunks avro_name shortname (idfield g) fd)
        (idfield g) (collected_types g) (vocab g).
Proof.
  intros Habs. unfold declare_field, load_chunks, save_chunks, field_base.
  rewrite Habs. simpl.
  destruct (String.eqb (shortname (f_name fd)) "class").
  - rewrite !app_nil_r. destruct g; simpl in *; congruence.
  - destruct (is_uri (f_type fd)); unfold serializer_write, write; simpl;
      rewrite Habs; reflexivity.
Qed.

Lemma declare_fields_emits (fs : list field_decl) (g : PythonCodeGen) :
  current_class_is_abstract g = false ->
  declare_fields avro_name shortname fs g =
  mkGen (out g ++ flat_map (load_chunks avro_name shortname) fs) false
        (serializer g ++ flat_map (save_chunks avro_name shortname (idfield g)) fs)
        (idfield g) (collected_types g) (vocab g).
Proof.
  revert g. induction fs as [|fd fs IH]; intros g Habs.
  - simpl. rewrite !app_nil_r. destruct g; simpl in *; congruence.
  - unfold declare_fields in *. simpl fold_left.
    rewrite (declare_field_emits fd (f_optional fd) g Habs).
    rewrite IH by reflexivity. simpl.
    rewrite <- !app_assoc. destruct fd; reflexivity.
Qed.

Lemma class_unit_eq (r : record_decl) :
  r_abstract r = false ->
  class_unit avro_name shortname r =
  class_chunks avro_name r ++ prelude_chunks avro_name shortname r
  ++ flat_map (load_chunks avro_name shortname) (r_fields r)
  ++ epilogue_chunks avro_name r ++ save_chunks_of avro_name shortname r
  ++ [Blank].
Proof.
  intros Habs. unfold class_unit, gen_class, begin_class.
  rewrite Habs.
  set (g1 := if str_in "class" (r_field_names r) then _ else _).
  assert (Hg1 : g1 =
    mkGen (class_chunks avro_name r ++ [FromDocHeader (safe_name avro_name (r_name r))]
             ++ class_check avro_name r)
          false
          ([SaveHeader] ++ (if str_in "class" (r_field_names r)
             then [SaveClass (safe_name avro_name (r_name r))] else []))
          (id_name r) [] ∅).
  { subst g1. unfold class_chunks, class_check, id_name, init_params, init_body.
    destruct (str_in "class" (r_field_names r));
      destruct (String.eqb (r_doc r) EmptyString); reflexivity. }
  rewrite Hg1. clear g1 Hg1.
  unfold prelude_chunks, id_chunks, save_chunks_of, epilogue_chunks, return_args.
  destruct (r_idfield r) as [i|] eqn:Hid.
  - unfold declare_id_field. simpl current_class_is_abstract. cbv iota.
    rewrite (declare_field_emits i true) by reflexivity.
    unfold write at 1. simpl.
    rewrite declare_fields_emits by reflexivity.
    unfold end_class. simpl.
    rewrite <- !app_assoc. simpl. rewrite <- !app_assoc. reflexivity.
  - rewrite declare_fields_emits by reflexivity.
    unfold end_class. simpl.
    rewrite <- !app_assoc. simpl. rewrite <- !app_assoc. reflexivity.
Qed.

End UnitShape.

(** *** Reading a unit back: the body of [fromDoc], the body of [save],
    the class environment *)

Section UnitBodies.

Variable avro_name : string -> string.
Variable shortname : string -> string.

Lemma load_chunks_fromDoc (fs : list field_decl) :
  List.filter is_fromDoc_chunk (flat_map (load_chunks avro_name shortname) fs)
  = flat_map (load_chunks avro_name shortname) fs.
Proof.
  induction fs as [|fd fs IH]; [reflexivity|].
  simpl. rewrite List.filter_app, IH. f_equal.
  unfold load_chunks. destruct (String.eqb _ "class"); reflexivity.
Qed.

Lemma save_chunks_fromDoc (idf : string) (fs : list field_decl) :
  List.filter is_fromDoc_chunk
    (flat_map (save_chunks avro_name shortname idf) fs) = [].
Proof.
  induction fs as [|fd fs IH]; [reflexivity|].
  simpl. rewrite List.filter_app, IH, app_nil_r.
  unfold save_chunks.
  destruct (String.eqb _ "class"); [reflexivity|].
  destruct (is_uri _); reflexivity.
Qed.

Lemma fromDoc_body_unit (r : record_decl) :
  r_abstract r = false ->
  fromDoc_body (class_unit avro_name shortname r) =
  prelude_chunks avro_name shortname r
  ++ flat_map (load_chunks avro_name shortname) (r_fields r)
  ++ epilogue_chunks avro_name r.
Proof.
  intros Habs. rewrite class_unit_eq by assumption.
  unfold fromDoc_body. rewrite !List.filter_app, load_chunks_fromDoc.
  assert (H1 : List.filter is_fromDoc_chunk (class_chunks avro_name r) = []).
  { unfold class_chunks. destruct (String.eqb (r_doc r) EmptyString); reflexivity. }
  assert (H2 : List.filter is_fromDoc_chunk
                 (prelude_chunks avro_name shortname r)
               = prelude_chunks avro_name shortname r).
  { unfold prelude_chunks, class_check, id_chunks, load_chunks.
    destruct (str_in "class" (r_field_names r)); destruct (r_idfield r) as [i|];
      simpl; try reflexivity;
      destruct (String.eqb (shortname (f_name i)) "class"); reflexivity. }
  assert (H3 : List.filter is_fromDoc_chunk
                 (save_chunks_of avro_name shortname r) = []).
  { unfold save_chunks_of. rewrite !List.filter_app, save_chunks_fromDoc.
    assert (Hi : List.filter is_fromDoc_chunk
                   match r_idfield r with
                   | Some i => save_chunks avro_name shortname (id_name r) i
                   | None => []
                   end = []).
    { destruct (r_idfield r) as [i|]; [|reflexivity].
      unfold save_chunks. destruct (String.eqb _ "class"); [reflexivity|].
      destruct (is_uri _); reflexivity. }
    rewrite Hi. destruct (str_in "class" (r_field_names r)); reflexivity. }
  rewrite H1, H2, H3. simpl. reflexivity.
Qed.

Lemma find_attrs_app (l1 l2 : list chunk) :
  forallb (fun c => negb (has_attrs c)) l1 = true ->
  find_attrs (l1 ++ l2) = find_attrs l2.
Proof.
  induction l1 as [|c l1 IH]; [reflexivity|].
  simpl. intros H. apply andb_prop in H as [Hc Hl].
  destruct c; simpl in *; try discriminate; auto.
Qed.

Lemma forallb_flat_map {A B} (p : B -> bool) (f : A -> list B) (l : list A) :
  (forall a, forallb p (f a) = true) ->
  forallb p (flat_map f l) = true.
Proof.
  intros H. induction l as [|a l IH]; [reflexivity|].
  simpl. rewrite forallb_app, H, IH. reflexivity.
Qed.

Lemma class_env_unit (r : record_decl) :
  r_abstract r = false ->
  class_env_of (class_unit avro_name shortname r) =
  mkClassEnv (init_params avro_name r) (init_body avro_name r)
             (r_field_names r).
Proof.
  intros Habs. rewrite class_unit_eq by assumption.
  unfold class_env_of. f_equal.
  - unfold class_chunks.
    destruct (String.eqb (r_doc r) EmptyString); reflexivity.
  - unfold class_chunks.
    destruct (String.eqb (r_doc r) EmptyString); reflexivity.
  - rewrite find_attrs_app.
    2:{ unfold class_chunks.
        destruct (String.eqb (r_doc r) EmptyString); reflexivity. }
    rewrite find_attrs_app.
    2:{ unfold prelude_chunks, class_check, id_chunks, load_chunks.
        destruct (str_in "class" (r_field_names r));
          destruct (r_idfield r) as [i|]; simpl; try reflexivity;
          destruct (String.eqb (shortname (f_name i)) "class"); reflexivity. }
    rewrite find_attrs_app.
    2:{ apply forallb_flat_map. intros fd. unfold load_chunks.
        destruct (String.eqb _ "class"); reflexivity. }
    unfold epilogue_chunks, save_chunks_of. rewrite <- !app_assoc. simpl.
    rewrite find_attrs_app.
    2:{ destruct (str_in "class" (r_field_names r)); reflexivity. }
    rewrite find_attrs_app.
    2:{ destruct (r_idfield r) as [i|]; [|reflexivity].
        unfold save_chunks. destruct (String.eqb _ "class"); [reflexivity|].
        destruct (is_uri _); reflexivity. }
    rewrite find_attrs_app.
    2:{ apply forallb_flat_map. intros fd. unfold save_chunks.
        destruct (String.eqb _ "class"); [reflexivity|].
        destruct (is_uri _); reflexivity. }
    reflexivity.
Qed.

End UnitBodies.

(** *** The emitted [fromDoc] *)

Section FromDoc.

Variable avro_name : string -> string.
Variable shortname : string -> string.
Variable LoadingOptions : Type.
Variable load_field :
  value -> string -> value -> LoadingOptions -> ValidationException + value.
Variable expand_url :
  string -> string -> LoadingOptions -> bool -> bool -> string.

Local Abbreviation exec1 := (exec_chunk LoadingOptions load_field expand_url).
Local Abbreviation exec := (exec_chunks LoadingOptions load_field expand_url).
Local Abbreviation scan := (scan_keys LoadingOptions expand_url).

Lemma exec_chunks_app env uuid (cs1 cs2 : list chunk) (f : frame LoadingOptions) :
  exec env uuid (cs1 ++ cs2) f =
  match exec env uuid cs1 f with
  | Next f' => exec env uuid cs2 f'
  | o => o
  end.
Proof.
  revert f. induction cs1 as [|c cs1 IH]; intros f; [reflexivity|].
  cbn [app exec_chunks]. destruct (exec1 env uuid c f); auto.
Qed.

(** An ordinary variable is a local variable of its own. *)
Lemma ordinary_spec (x : string) :
  ordinary x = true ->
  String.eqb x "baseuri" = false /\ String.eqb x "docRoot" = false
  /\ String.eqb x "doc" = false /\ unmodelled x = false.
Proof.
  unfold ordinary, str_in. cbn [existsb]. intros H.
  apply andb_prop in H as [H1 H2].
  apply negb_true_iff in H1. apply negb_true_iff in H2.
  apply orb_false_elim in H1 as [Ha H1].
  apply orb_false_elim in H1 as [Hb H1].
  apply orb_false_elim in H1 as [Hc _]. auto.
Qed.

Lemma assign_ordinary (x : string) (v : value) (f : frame LoadingOptions) :
  ordinary x = true ->
  assign LoadingOptions x v f = set_local LoadingOptions x v f.
Proof.
  intros H. apply ordinary_spec in H as (Ha & Hb & _).
  unfold assign. rewrite Ha, Hb. reflexivity.
Qed.

Lemma lookup_ordinary (x : string) (f : frame LoadingOptions) :
  ordinary x = true -> lookup_var LoadingOptions x f = locals f !! x.
Proof.
  intros H. apply ordinary_spec in H as (Ha & Hb & Hc & _).
  unfold lookup_var. rewrite Ha, Hb, Hc. reflexivity.
Qed.

Lemma try_load_ordinary (sn fn ft : string) (f : frame LoadingOptions) :
  ordinary sn = true ->
  try_load LoadingOptions load_field sn fn ft f =
  let f1 := log_call LoadingOptions
              (mkCall (doc_get fn (_doc f)) ft (baseuri f)) f in
  match load_field (doc_get fn (_doc f)) ft (baseuri f) (loadingOptions f) with
  | inr v => set_local LoadingOptions sn v f1
  | inl e =>
      set_errors LoadingOptions (_errors__ f ++ [field_error (_doc f) fn e]) f1
  end.
Proof.
  intros Ho. unfold try_load.
  cbn [baseuri loadingOptions _doc _errors__ log_call].
  destruct (load_field _ _ _ _); [reflexivity|]. apply assign_ordinary, Ho.
Qed.

Lemma same_call_refl (f : frame LoadingOptions) : same_call f f.
Proof. repeat split. Qed.

Lemma load_chunks_run env uuid (fd : field_decl) (f : frame LoadingOptions) :
  ordinary (safe_name avro_name (f_name fd)) = true ->
  exists f',
    exec env uuid (load_chunks avro_name shortname fd) f = Next f'
    /\ same_call f f'
    /\ calls f' = calls f ++ field_calls shortname (_doc f) (baseuri f) fd
    /\ _errors__ f' =
       _errors__ f
       ++ field_failures shortname LoadingOptions load_field
            (_doc f) (baseuri f) (loadingOptions f) fd.
Proof.
  intros Ho. pose proof (ordinary_spec _ Ho) as (_ & _ & _ & Hu).
  unfold load_chunks, field_calls, field_failures, attempted.
  destruct (String.eqb (shortname (f_name fd)) "class").
  - exists f. simpl. rewrite !app_nil_r. auto using same_call_refl.
  - cbn [exec_chunks exec_chunk negb andb]. rewrite Hu.
    destruct (f_optional fd); cbn [negb orb].
    + destruct (odict_mem (shortname (f_name fd)) (_doc f)).
      * eexists. split; [reflexivity|].
        rewrite try_load_ordinary by exact Ho. cbv zeta.
        destruct (load_field _ _ _ _); simpl;
          rewrite ?app_nil_r; repeat split; reflexivity.
      * eexists. split; [reflexivity|].
        rewrite assign_ordinary by exact Ho. simpl.
        rewrite !app_nil_r. repeat split; reflexivity.
    + eexists. split; [reflexivity|].
      rewrite try_load_ordinary by exact Ho. cbv zeta.
      destruct (load_field _ _ _ _); simpl;
        rewrite ?app_nil_r; repeat split; reflexivity.
Qed.

Lemma load_phase_run env uuid (fs : list field_decl) (f : frame LoadingOptions) :
  (forall fd, In fd fs -> ordinary (safe_name avro_name (f_name fd)) = true) ->
  exists f',
    exec env uuid (flat_map (load_chunks avro_name shortname) fs) f = Next f'
    /\ same_call f f'
    /\ calls f' =
       calls f ++ flat_map (field_calls shortname (_doc f) (baseuri f)) fs
    /\ _errors__ f' =
       _errors__ f
       ++ flat_map (field_failures shortname LoadingOptions load_field
                      (_doc f) (baseuri f) (loadingOptions f)) fs.
Proof.
  revert f. induction fs as [|fd fs IH]; intros f Hord.
  - exists f. simpl. rewrite !app_nil_r. auto using same_call_refl.
  - simpl flat_map. rewrite exec_chunks_app.
    destruct (load_chunks_run env uuid fd f (Hord fd (or_introl eq_refl)))
      as (f1 & -> & Hs1 & Hc1 & He1).
    destruct (IH f1 (fun fd' H => Hord fd' (or_intror H)))
      as (f2 & -> & Hs2 & Hc2 & He2).
    destruct Hs1 as (Hd & Hb & Hl & Hr & Hx & Hn).
    destruct Hs2 as (Hd' & Hb' & Hl' & Hr' & Hx' & Hn').
    exists f2. split; [reflexivity|].
    rewrite Hd, Hb, Hl in *.
    split; [repeat split; congruence|].
    rewrite Hc2, Hc1, He2, He1, <- !app_assoc. auto.
Qed.

Lemma odict_get_set_eq {A} (k : string) (v : A) (m : odict A) :
  odict_get k (odict_set k v m) = Some v.
Proof.
  induction m as [|[k' v'] m IH]; simpl.
  - rewrite String.eqb_refl. reflexivity.
  - destruct (String.eqb k k') eqn:E; simpl.
    + rewrite String.eqb_refl. reflexivity.
    + rewrite E. exact IH.
Qed.

Lemma scan_keys_spec attrs attrstr d lo keys ext errs :
  scan attrs attrstr d lo keys ext errs =
  (fold_left (store_extension LoadingOptions expand_url attrs d lo)
             (examined attrs keys) ext,
   errs ++ invalid_of attrs attrstr d keys).
Proof.
  revert ext. induction keys as [|k keys IH]; intros ext.
  - simpl. rewrite app_nil_r. reflexivity.
  - simpl. unfold invalid_of, first_bare, bare, undeclared. simpl.
    destruct (str_in k attrs) eqn:Hin; simpl.
    + rewrite IH. unfold store_extension, undeclared. rewrite Hin. reflexivity.
    + destruct (has_char ":" k) eqn:Hc; simpl.
      * rewrite IH. unfold store_extension, undeclared. rewrite Hin.
        reflexivity.
      * reflexivity.
Qed.

Lemma invalid_of_length attrs attrstr d keys :
  length (invalid_of attrs attrstr d keys) <= 1.
Proof. unfold invalid_of. destruct (first_bare attrs keys); simpl; lia. Qed.

Lemma epilogue_run env uuid (r : record_decl) (f : frame LoadingOptions) :
  let all := _errors__ f
             ++ invalid_of (ce_attrs env) (attrstr_of r) (_doc f)
                           (odict_keys (_doc f)) in
  let o := exec env uuid (epilogue_chunks avro_name r) f in
  calls (outcome_frame o) = calls f
  /\ baseuri (outcome_frame o) = baseuri f
  /\ _errors__ (outcome_frame o) = all
  /\ (all <> [] ->
      o = Raise (VExc ("Trying '" +:+ safe_name avro_name (r_name r) +:+ "'")
                      None all) (outcome_frame o))
  /\ (all = [] -> forall e f', o <> Raise e f').
Proof.
  intros all o. subst o. unfold epilogue_chunks. simpl.
  rewrite scan_keys_spec. fold (attrstr_of r). fold all.
  destruct all as [|e0 all'] eqn:Hall; simpl.
  - destruct (List.find unmodelled _) as [x|]; simpl.
    { repeat split; try congruence; try (intros _ e1 f1; discriminate). }
    destruct (read_vars _ _ _) as [e|args]; simpl.
    + repeat split; try congruence; try (intros _ e1 f1; discriminate).
    + destruct (construct _ _ _ _) as [e|i]; simpl;
        repeat split; try congruence; try (intros _ e1 f1; discriminate).
  - repeat split; try congruence.
Qed.

Lemma class_check_run env uuid (r : record_decl) (f : frame LoadingOptions) :
  (str_in "class" (r_field_names r) = true ->
   doc_get "class" (_doc f) = VStr (safe_name avro_name (r_name r))) ->
  exec env uuid
       (FromDocHeader (safe_name avro_name (r_name r)) :: class_check avro_name r) f
  = Next (set_errors LoadingOptions [] f).
Proof.
  intros Hc. unfold class_check.
  destruct (str_in "class" (r_field_names r)); [|reflexivity].
  simpl. rewrite Hc by reflexivity. rewrite String.eqb_refl. reflexivity.
Qed.

(** The id block on an input without the id key. *)
Lemma id_absent_run env uuid (r : record_decl) (i : field_decl)
    (f : frame LoadingOptions) :
  r_idfield r = Some i ->
  String.eqb (shortname (f_name i)) "class" = false ->
  ordinary (safe_name avro_name (f_name i)) = true ->
  odict_mem (shortname (f_name i)) (_doc f) = false ->
  let sid := safe_name avro_name (f_name i) in
  let f1 := set_local LoadingOptions sid VNone f in
  exec env uuid (id_chunks avro_name shortname r) f =
  match docRoot f with
  | Some root =>
      Next (set_baseuri LoadingOptions root (set_local LoadingOptions sid root f1))
  | None =>
      if f_optional i
      then Next (set_baseuri LoadingOptions (VStr ("_:" +:+ uuid))
                   (set_local LoadingOptions sid (VStr ("_:" +:+ uuid)) f1))
      else Raise (VExc ("Missing " +:+ shortname (f_name i)) None []) f1
  end.
Proof.
  intros Hi Hc Ho Hm sid f1.
  pose proof (ordinary_spec _ Ho) as (_ & _ & _ & Hu).
  unfold id_chunks, load_chunks. rewrite Hi. cbn [f_name f_type f_optional].
  rewrite Hc. cbn [app exec_chunks exec_chunk]. rewrite Hu, Hm.
  rewrite assign_ordinary by exact Ho. fold sid f1.
  fold sid in Hu, Ho. rewrite lookup_ordinary by exact Ho.
  unfold f1 at 1. cbn [locals set_local]. rewrite lookup_insert_eq.
  cbn [docRoot set_local f1].
  destruct (docRoot f) as [root|].
  - unfold base_from. rewrite assign_ordinary, lookup_ordinary by exact Ho.
    cbn [locals set_local]. rewrite lookup_insert_eq. reflexivity.
  - destruct (f_optional i); [|reflexivity].
    unfold base_from. rewrite assign_ordinary, lookup_ordinary by exact Ho.
    cbn [locals set_local]. rewrite lookup_insert_eq. reflexivity.
Qed.

Lemma exec_cons env uuid (c : chunk) (cs : list chunk)
    (f : frame LoadingOptions) :
  exec env uuid (c :: cs) f =
  match exec1 env uuid c f with
  | Next f' => exec env uuid cs f'
  | o => o
  end.
Proof. reflexivity. Qed.

(** The statement of a field whose variable the model follows. *)
Lemma load_field_step env uuid (o : bool) (sn fn ft : string)
    (f : frame LoadingOptions) :
  unmodelled sn = false ->
  exec1 env uuid (LoadField o sn fn ft) f =
  Next (if negb o || odict_mem fn (_doc f)
        then try_load LoadingOptions load_field sn fn ft f
        else assign LoadingOptions sn VNone f).
Proof.
  intros Hu. cbn [exec_chunk]. rewrite Hu.
  destruct o; [destruct (odict_mem fn (_doc f))|]; reflexivity.
Qed.

(** The id block, when the id variable is bound. *)
Lemma id_default_run env uuid (sid fn : string) (o : bool)
    (f : frame LoadingOptions) v :
  ordinary sid = true ->
  locals f !! sid = Some v ->
  exec1 env uuid (IdDefault sid (if o then OptUuid sid else OptMissing fn)) f =
  match v with
  | VNone =>
      match docRoot f with
      | Some r =>
          Next (set_baseuri LoadingOptions r (set_local LoadingOptions sid r f))
      | None =>
          if o
          then Next (set_baseuri LoadingOptions (VStr ("_:" +:+ uuid))
                       (set_local LoadingOptions sid (VStr ("_:" +:+ uuid)) f))
          else Raise (VExc ("Missing " +:+ fn) None []) f
      end
  | _ => Next (set_baseuri LoadingOptions v f)
  end.
Proof.
  intros Ho Hv. pose proof (ordinary_spec _ Ho) as (_ & _ & _ & Hu).
  cbn [exec_chunk]. rewrite Hu, lookup_ordinary, Hv by exact Ho.
  destruct v; try reflexivity.
  destruct (docRoot f) as [r|].
  - unfold base_from. rewrite assign_ordinary, lookup_ordinary by exact Ho.
    cbn [locals set_local]. rewrite lookup_insert_eq. reflexivity.
  - destruct o; [|reflexivity].
    unfold base_from. rewrite assign_ordinary, lookup_ordinary by exact Ho.
    cbn [locals set_local]. rewrite lookup_insert_eq. reflexivity.
Qed.

(** The id block, when the id variable is unbound. *)
Lemma id_default_unbound env uuid (sid : string) opt
    (f : frame LoadingOptions) :
  ordinary sid = true ->
  locals f !! sid = None ->
  exec1 env uuid (IdDefault sid opt) f = Crash (UnboundLocalError sid) f.
Proof.
  intros Ho Hv. pose proof (ordinary_spec _ Ho) as (_ & _ & _ & Hu).
  cbn [exec_chunk]. rewrite Hu, lookup_ordinary, Hv by exact Ho. reflexivity.
Qed.

(** The class check. *)
Lemma class_check_cases env uuid (r : record_decl) (f : frame LoadingOptions) :
  exec env uuid
       (FromDocHeader (safe_name avro_name (r_name r)) :: class_check avro_name r) f
  = Next (set_errors LoadingOptions [] f)
  \/ exec env uuid
       (FromDocHeader (safe_name avro_name (r_name r)) :: class_check avro_name r) f
     = Raise (VExc ("Not a " +:+ safe_name avro_name (r_name r)) None [])
             (set_errors LoadingOptions [] f).
Proof.
  unfold class_check.
  destruct (str_in "class" (r_field_names r)); [|left; reflexivity].
  rewrite !exec_cons. cbn [exec_chunk exec_chunks _doc set_errors].
  destruct (doc_get "class" (_doc f)); auto.
  destruct (String.eqb _ _); auto.
Qed.

(** A prelude that falls through leaves no error behind: a failed id
    leaves its variable unbound, and the id block then stops the call. *)
Lemma prelude_next env uuid (r : record_decl) (f f0 : frame LoadingOptions) :
  (forall i, r_idfield r = Some i ->
             ordinary (safe_name avro_name (f_name i)) = true) ->
  locals f = ∅ ->
  exec env uuid (prelude_chunks avro_name shortname r) f = Next f0 ->
  _doc f0 = _doc f /\ loadingOptions f0 = loadingOptions f
  /\ docRoot f0 = docRoot f /\ _errors__ f0 = [].
Proof.
  intros Hord Hl. unfold prelude_chunks.
  change ([FromDocHeader (safe_name avro_name (r_name r))]
          ++ class_check avro_name r ++ id_chunks avro_name shortname r)
    with ((FromDocHeader (safe_name avro_name (r_name r))
           :: class_check avro_name r) ++ id_chunks avro_name shortname r).
  rewrite exec_chunks_app.
  destruct (class_check_cases env uuid r f) as [-> | ->]; [|discriminate].
  unfold id_chunks. destruct (r_idfield r) as [i|] eqn:Hi.
  2:{ intros [= <-]. cbn. auto. }
  specialize (Hord i eq_refl).
  pose proof (ordinary_spec _ Hord) as (_ & _ & _ & Hu).
  set (f1 := set_errors LoadingOptions [] f).
  assert (Hl1 : locals f1 = ∅) by exact Hl.
  unfold load_chunks. cbn [f_name f_type f_optional].
  destruct (String.eqb (shortname (f_name i)) "class"); cbn [app].
  - rewrite exec_cons, id_default_unbound; [discriminate|exact Hord|].
    rewrite Hl1. apply lookup_empty.
  - rewrite exec_cons, load_field_step by exact Hu. cbn [negb orb].
    destruct (odict_mem (shortname (f_name i)) (_doc f1)).
    + rewrite try_load_ordinary by exact Hord. cbv zeta.
      destruct (load_field _ _ _ _) as [e|v].
      * rewrite exec_cons, id_default_unbound; [discriminate|exact Hord|].
        cbn [locals set_errors log_call]. rewrite Hl1. apply lookup_empty.
      * rewrite exec_cons.
        erewrite id_default_run;
          [|exact Hord|cbn [locals set_local]; apply lookup_insert_eq].
        cbn [docRoot set_local log_call].
        destruct v; try (intros [= <-]; cbn; auto; fail).
        destruct (docRoot f1) eqn:Hr; [intros [= <-]; cbn; auto|].
        destruct (f_optional i); [intros [= <-]; cbn; auto|discriminate].
    + rewrite assign_ordinary by exact Hord. rewrite exec_cons.
      erewrite id_default_run;
        [|exact Hord|cbn [locals set_local]; apply lookup_insert_eq].
      cbn [docRoot set_local].
      destruct (docRoot f1) eqn:Hr; [intros [= <-]; cbn; auto|].
      destruct (f_optional i); [intros [= <-]; cbn; auto|discriminate].
Qed.

(** After the prelude, the rest of [fromDoc]: fields, undeclared keys,
    the raise or the return. *)
Lemma fromDoc_after_prelude (r : record_decl) uuid doc b lo root f0 :
  r_abstract r = false ->
  plain_fields avro_name r ->
  exec (class_env_of (class_unit avro_name shortname r)) uuid
       (prelude_chunks avro_name shortname r) (entry doc b lo root) = Next f0 ->
  let o := fromDoc LoadingOptions load_field expand_url
             (class_unit avro_name shortname r) uuid doc b lo root in
  let failures :=
    flat_map (field_failures shortname LoadingOptions load_field
                doc (baseuri f0) lo) (r_fields r) in
  let stray := invalid_of (r_field_names r) (attrstr_of r) doc (odict_keys doc) in
  calls (outcome_frame o) =
    calls f0 ++ flat_map (field_calls shortname doc (baseuri f0)) (r_fields r)
  /\ baseuri (outcome_frame o) = baseuri f0
  /\ _errors__ (outcome_frame o) = failures ++ stray
  /\ (failures ++ stray <> [] ->
      o = Raise (VExc ("Trying '" +:+ safe_name avro_name (r_name r) +:+ "'")
                      None (failures ++ stray)) (outcome_frame o))
  /\ (failures ++ stray = [] -> forall e f, o <> Raise e f).
Proof.
  intros Habs (Hpi & Hpf & _) Hpre o failures stray. subst o.
  unfold fromDoc, entry in *. rewrite fromDoc_body_unit by assumption.
  rewrite exec_chunks_app, Hpre.
  destruct (prelude_next _ _ _ (entry doc b lo root) _ Hpi eq_refl Hpre)
    as (Hd & Hlo & _ & He).
  simpl in Hd, Hlo.
  rewrite exec_chunks_app.
  destruct (load_phase_run (class_env_of (class_unit avro_name shortname r))
              uuid (r_fields r) f0 Hpf) as (f1 & -> & Hs & Hc & Hf).
  destruct Hs as (Hd1 & Hb1 & Hl1 & _).
  pose proof (epilogue_run (class_env_of (class_unit avro_name shortname r))
                uuid r f1) as Hep.
  cbv zeta in Hep.
  replace (ce_attrs (class_env_of (class_unit avro_name shortname r)))
    with (r_field_names r) in Hep
    by (rewrite class_env_unit by assumption; reflexivity).
  rewrite Hf, He, Hd1, Hd, Hlo in Hep. simpl app in Hep.
  rewrite Hd in Hc.
  fold failures stray in Hep.
  destruct Hep as (H1 & H2 & H3 & H4 & H5).
  repeat split; try assumption; congruence.
Qed.

(** What holds of the fields once the class check and the id block have
    fallen through: every declared field other than the id and the class
    discriminator is decoded in declaration order whatever the earlier ones
    did; the loader calls are those of the attempted fields, in order; each
    failing loader contributes one error naming its field; and when the
    collected list is not empty, [fromDoc] raises one error naming the
    record type whose children are exactly the collected errors (the field
    errors, then at most one invalid-field error). *)
Theorem field_phase_aggregates (r : record_decl) uuid doc b lo root f0 :
  r_abstract r = false ->
  plain_fields avro_name r ->
  exec (class_env_of (class_unit avro_name shortname r)) uuid
       (prelude_chunks avro_name shortname r) (entry doc b lo root) = Next f0 ->
  let o := fromDoc LoadingOptions load_field expand_url
             (class_unit avro_name shortname r) uuid doc b lo root in
  let failures :=
    flat_map (field_failures shortname LoadingOptions load_field
                doc (baseuri f0) lo) (r_fields r) in
  let stray := invalid_of (r_field_names r) (attrstr_of r) doc (odict_keys doc) in
  calls (outcome_frame o) =
    calls f0 ++ flat_map (field_calls shortname doc (baseuri f0)) (r_fields r)
  /\ _errors__ (outcome_frame o) = failures ++ stray
  /\ length stray <= 1
  /\ (failures ++ stray <> [] ->
      o = Raise (VExc ("Trying '" +:+ safe_name avro_name (r_name r) +:+ "'")
                      None (failures ++ stray)) (outcome_frame o))
  /\ (failures ++ stray = [] -> forall e f, o <> Raise e f).
Proof.
  intros Habs Hplain Hpre o failures stray.
  destruct (fromDoc_after_prelude r uuid doc b lo root f0 Habs Hplain Hpre)
    as (H1 & _ & H3 & H4 & H5).
  repeat split; try assumption. apply invalid_of_length.
Qed.

(** C4: with a class discriminator, an input whose 'class' entry is not the
    record's class name makes [fromDoc] raise "Not a <class>" at once: no
    field loader has been called, and the error is raised on its own, not
    through the list of field errors, which is still empty. *)
Theorem class_mismatch_is_fatal (r : record_decl) uuid doc b lo root :
  r_abstract r = false ->
  str_in "class" (r_field_names r) = true ->
  doc_get "class" doc <> VStr (safe_name avro_name (r_name r)) ->
  let o := fromDoc LoadingOptions load_field expand_url
             (class_unit avro_name shortname r) uuid doc b lo root in
  o = Raise (VExc ("Not a " +:+ safe_name avro_name (r_name r)) None [])
            (entry doc b lo root)
  /\ calls (outcome_frame o) = []
  /\ _errors__ (outcome_frame o) = [].
Proof.
  intros Habs Hcls Hne o.
  assert (Ho : o = Raise (VExc ("Not a " +:+ safe_name avro_name (r_name r))
                               None []) (entry doc b lo root)).
  { subst o. unfold fromDoc. rewrite fromDoc_body_unit by assumption.
    unfold prelude_chunks, class_check. rewrite Hcls. simpl.
    destruct (doc_get "class" doc) as [| | |s| | |] eqn:E; try reflexivity.
    destruct (String.eqb s (safe_name avro_name (r_name r))) eqn:Es;
      [|reflexivity].
    apply String.eqb_eq in Es. subst s. contradiction. }
  rewrite Ho. auto.
Qed.

Lemma examined_first_bare attrs keys :
  first_bare attrs keys = None -> examined attrs keys = keys.
Proof.
  unfold first_bare. induction keys as [|k keys IH]; simpl; [reflexivity|].
  destruct (bare attrs k); [discriminate|]. intros H. f_equal. auto.
Qed.

Lemma examined_not_bare attrs keys k :
  In k (examined attrs keys) -> bare attrs k = false.
Proof.
  induction keys as [|k' keys IH]; simpl; [contradiction|].
  destruct (bare attrs k') eqn:E; simpl; [contradiction|].
  intros [<-|H]; auto.
Qed.

Lemma odict_get_set_ne {A} (k k' : string) (v : A) (m : odict A) :
  k <> k' -> odict_get k (odict_set k' v m) = odict_get k m.
Proof.
  intros Hne. induction m as [|[k0 v0] m IH]; simpl.
  - destruct (String.eqb_spec k k'); [contradiction|reflexivity].
  - destruct (String.eqb_spec k' k0) as [->|Hne0]; simpl.
    + destruct (String.eqb_spec k k0); [contradiction|reflexivity].
    + destruct (String.eqb_spec k k0); [reflexivity|exact IH].
Qed.

(** Where a stored key ends up: under its expansion, with its value, when
    no later undeclared key has the same expansion. *)
Lemma stored_last attrs d lo (keys1 keys2 : list string) (ext : odict value) k :
  let store := store_extension LoadingOptions expand_url attrs d lo in
  let ex := fun k => expand_url k EmptyString lo false false in
  str_in k attrs = false ->
  (forall k', In k' keys2 -> str_in k' attrs = false -> ex k' <> ex k) ->
  odict_get (ex k) (fold_left store (keys1 ++ k :: keys2) ext)
  = Some (doc_get k d).
Proof.
  intros store ex Hu. rewrite fold_left_app. cbn [fold_left].
  generalize (fold_left store keys1 ext) as ext1. intros ext1.
  assert (H0 : odict_get (ex k) (store ext1 k) = Some (doc_get k d)).
  { unfold store, store_extension, undeclared. rewrite Hu. cbn [negb].
    apply odict_get_set_eq. }
  revert H0. generalize (store ext1 k) as ext2.
  induction keys2 as [|x keys2 IH]; intros ext2 H0 Hne; [exact H0|].
  cbn [fold_left]. apply IH.
  - unfold store at 1, store_extension, undeclared.
    destruct (str_in x attrs) eqn:Hx; cbn [negb]; [exact H0|].
    rewrite odict_get_set_ne; [exact H0|].
    intros E. apply (Hne x); [now left|exact Hx|]. symmetry. exact E.
  - intros k' Hin. apply Hne. now right.
Qed.

(** Nothing else is stored: every entry of the map comes from an
    undeclared key of the list, under its expansion, with its value. *)
Lemma stored_only attrs d lo (l : list string) (ext : odict value) u v :
  let store := store_extension LoadingOptions expand_url attrs d lo in
  let ex := fun k => expand_url k EmptyString lo false false in
  odict_get u (fold_left store l ext) = Some v ->
  odict_get u ext = Some v
  \/ exists k, In k l /\ str_in k attrs = false /\ ex k = u /\ v = doc_get k d.
Proof.
  intros store ex. revert ext.
  induction l as [|x l IH]; intros ext; cbn [fold_left]; [auto|].
  intros H. apply IH in H as [H|(k & Hin & Hk)].
  - unfold store, store_extension, undeclared in H.
    destruct (str_in x attrs) eqn:Hx; cbn [negb] in H; [auto|].
    destruct (String.eqb_spec u (ex x)) as [->|Hne].
    + rewrite odict_get_set_eq in H. injection H as <-.
      right. exists x. split; [now left|]. auto.
    + rewrite odict_get_set_ne in H by exact Hne. auto.
  - right. exists k. split; [now right|exact Hk].
Qed.

(** An optional field whose key is absent: the variable is set to [None],
    the loader is not called, no error is recorded. *)
Lemma optional_absent_local env uuid sn fn ft (f : frame LoadingOptions) :
  ordinary sn = true ->
  odict_mem fn (_doc f) = false ->
  exec1 env uuid (LoadField true sn fn ft) f
  = Next (set_local LoadingOptions sn VNone f).
Proof.
  intros Ho H. pose proof (ordinary_spec _ Ho) as (_ & _ & _ & Hu).
  rewrite load_field_step by exact Hu. cbn [negb orb]. rewrite H.
  rewrite assign_ordinary by exact Ho. reflexivity.
Qed.

(** The prelude on an input without the id key, when the class check
    passes. *)
Lemma prelude_id_absent env uuid (r : record_decl) (i : field_decl)
    doc b lo root :
  r_idfield r = Some i ->
  String.eqb (shortname (f_name i)) "class" = false ->
  ordinary (safe_name avro_name (f_name i)) = true ->
  odict_mem (shortname (f_name i)) doc = false ->
  (str_in "class" (r_field_names r) = true ->
   doc_get "class" doc = VStr (safe_name avro_name (r_name r))) ->
  let sid := safe_name avro_name (f_name i) in
  let f1 := set_local LoadingOptions sid VNone (entry doc b lo root) in
  exec env uuid (prelude_chunks avro_name shortname r) (entry doc b lo root) =
  match root with
  | Some x =>
      Next (set_baseuri LoadingOptions (VStr x)
              (set_local LoadingOptions sid (VStr x) f1))
  | None =>
      if f_optional i
      then Next (set_baseuri LoadingOptions (VStr ("_:" +:+ uuid))
                   (set_local LoadingOptions sid (VStr ("_:" +:+ uuid)) f1))
      else Raise (VExc ("Missing " +:+ shortname (f_name i)) None []) f1
  end.
Proof.
  intros Hi Hc Ho Hm Hcls sid f1. unfold prelude_chunks.
  change ([FromDocHeader (safe_name avro_name (r_name r))]
          ++ class_check avro_name r ++ id_chunks avro_name shortname r)
    with ((FromDocHeader (safe_name avro_name (r_name r))
           :: class_check avro_name r) ++ id_chunks avro_name shortname r).
  rewrite exec_chunks_app, class_check_run by exact Hcls.
  rewrite (id_absent_run env uuid r i _ Hi Hc Ho) by exact Hm.
  destruct root; reflexivity.
Qed.

(** The prelude on an input whose id key is present and loads. *)
Lemma prelude_id_present env uuid (r : record_decl) (i : field_decl)
    doc b lo root v :
  r_idfield r = Some i ->
  String.eqb (shortname (f_name i)) "class" = false ->
  ordinary (safe_name avro_name (f_name i)) = true ->
  odict_mem (shortname (f_name i)) doc = true ->
  load_field (doc_get (shortname (f_name i)) doc) (name (f_type i)) (VStr b) lo
    = inr v ->
  v <> VNone ->
  (str_in "class" (r_field_names r) = true ->
   doc_get "class" doc = VStr (safe_name avro_name (r_name r))) ->
  exec env uuid (prelude_chunks avro_name shortname r) (entry doc b lo root)
  = Next (set_baseuri LoadingOptions v
            (set_local LoadingOptions (safe_name avro_name (f_name i)) v
               (log_call LoadingOptions
                  (mkCall (doc_get (shortname (f_name i)) doc)
                          (name (f_type i)) (VStr b))
                  (entry doc b lo root)))).
Proof.
  intros Hi Hc Ho Hm Hl Hv Hcls. unfold prelude_chunks.
  pose proof (ordinary_spec _ Ho) as (_ & _ & _ & Hu).
  change ([FromDocHeader (safe_name avro_name (r_name r))]
          ++ class_check avro_name r ++ id_chunks avro_name shortname r)
    with ((FromDocHeader (safe_name avro_name (r_name r))
           :: class_check avro_name r) ++ id_chunks avro_name shortname r).
  rewrite exec_chunks_app, class_check_run by exact Hcls.
  unfold id_chunks, load_chunks. rewrite Hi. cbn [f_name f_type f_optional].
  rewrite Hc. cbn [app].
  rewrite exec_cons, load_field_step by exact Hu. cbn [negb orb].
  cbn [_doc set_errors entry]. rewrite Hm.
  rewrite try_load_ordinary by exact Ho. cbv zeta.
  cbn [_doc baseuri loadingOptions set_errors entry]. rewrite Hl.
  rewrite exec_cons.
  erewrite id_default_run;
    [|exact Ho|cbn [locals set_local]; apply lookup_insert_eq].
  destruct v; try reflexivity. contradiction.
Qed.

(** *** The returned instance *)

Lemma bind_params_aligned (params : list (string * bool)) (args : list value) :
  length args = length params ->
  bind_params params args = inr (zip (map fst params) args).
Proof.
  revert args. induction params as [|[p dflt] params IH]; intros [|a args];
    simpl; try discriminate; [reflexivity|].
  intros [= Hlen]. rewrite (IH _ Hlen). reflexivity.
Qed.

Lemma read_vars_spec (names : list string) (f : frame LoadingOptions) vs :
  read_vars LoadingOptions names f = inr vs ->
  length vs = length names
  /\ forall x, In x names -> NoDup names ->
       odict_get x (zip names vs) = lookup_var LoadingOptions x f.
Proof.
  revert vs. induction names as [|n names IH]; intros vs; cbn [read_vars].
  - intros [= <-]. split; [reflexivity|]. intros x [].
  - destruct (lookup_var LoadingOptions n f) as [v|] eqn:En; [|discriminate].
    destruct (read_vars LoadingOptions names f) as [e|vs'] eqn:Er;
      [discriminate|].
    intros [= <-]. destruct (IH _ eq_refl) as (Hlen & Hget).
    split; [simpl; congruence|].
    intros x Hin Hnd. simpl.
    apply NoDup_cons in Hnd as [Hn Hnd].
    destruct (String.eqb_spec x n) as [->|Hne]; [congruence|].
    destruct Hin as [->|Hin]; [contradiction|]. auto.
Qed.

Lemma run_inits_attr (inits : list field_init) bound self0 self a :
  run_inits inits bound self0 = inr self ->
  a <> "class_" ->
  (InitAttr a ∈ inits -> odict_get a self = odict_get a bound)
  /\ (InitAttr a ∉ inits -> odict_get a self = odict_get a self0).
Proof.
  intros Hrun Ha. revert self0 Hrun.
  induction inits as [|[c|a'] inits IH]; intros self0; simpl.
  - intros [= <-]. split; [intros H; inversion H|reflexivity].
  - intros Hrun. destruct (IH _ Hrun) as [Hin Hout]. split.
    + intros H. apply elem_of_cons in H as [[=]|H]. auto.
    + intros H. apply not_elem_of_cons in H as [_ H].
      rewrite (Hout H). apply odict_get_set_ne. exact Ha.
  - destruct (odict_get a' bound) as [v|] eqn:Eb; [|discriminate].
    intros Hrun. destruct (IH _ Hrun) as [Hin Hout]. split.
    + intros H. destruct (decide (InitAttr a ∈ inits)) as [Hd|Hd]; [auto|].
      apply elem_of_cons in H as [[= ->]|H]; [|contradiction].
      rewrite (Hout Hd), odict_get_set_eq. congruence.
    + intros H. apply not_elem_of_cons in H as [Hne H].
      rewrite (Hout H). apply odict_get_set_ne. congruence.
Qed.

(** The last statements of [fromDoc], when they return: the frame, and the
    instance that [cls(...)] builds. *)
Lemma epilogue_return env uuid (r : record_decl) (f f' : frame LoadingOptions) i :
  exec env uuid (epilogue_chunks avro_name r) f = Return i f' ->
  let ext :=
    fold_left (store_extension LoadingOptions expand_url (ce_attrs env)
                 (_doc f) (loadingOptions f))
              (examined (ce_attrs env) (odict_keys (_doc f))) [] in
  f' = set_snapshot LoadingOptions (_doc f)
         (set_errors LoadingOptions []
            (set_extension_fields LoadingOptions ext f))
  /\ _errors__ f = []
  /\ invalid_of (ce_attrs env) (attrstr_of r) (_doc f) (odict_keys (_doc f)) = []
  /\ inst_extension_fields i = ext
  /\ inst_loadingOptions i = loadingOptions f
  /\ inst_original_doc i = Some (_doc f)
  /\ exists args bound,
       read_vars LoadingOptions (return_args avro_name r) f' = inr args
       /\ bind_params (ce_params env) args = inr bound
       /\ run_inits (ce_inits env) bound [] = inr (inst_attrs i).
Proof.
  unfold epilogue_chunks. rewrite !exec_cons. cbn [exec_chunk exec_chunks].
  rewrite scan_keys_spec. fold (attrstr_of r).
  destruct (_errors__ f ++ invalid_of _ _ _ _) as [|e0 all] eqn:Hall;
    [|discriminate].
  apply app_eq_nil in Hall as [He Hinv].
  destruct (List.find unmodelled _) as [x|]; [discriminate|].
  destruct (read_vars _ _ _) as [e|args] eqn:Er; [discriminate|].
  unfold construct.
  destruct (bind_params _ _) as [e|bound] eqn:Eb; [discriminate|].
  destruct (run_inits _ _ _) as [e|self] eqn:Ei; [discriminate|].
  intros [= <- <-]. cbn. repeat split; try assumption. eauto.
Qed.

Lemma exec1_return env uuid c (f f' : frame LoadingOptions) i :
  exec1 env uuid c f = Return i f' -> exists args, c = ReturnCls args.
Proof.
  destruct c; cbn [exec_chunk]; try discriminate; eauto;
    unfold base_from; repeat case_match; discriminate.
Qed.

Lemma exec_no_return env uuid cs (f f' : frame LoadingOptions) i :
  forallb (fun c => negb (is_return c)) cs = true ->
  exec env uuid cs f <> Return i f'.
Proof.
  revert f. induction cs as [|c cs IH]; intros f; [discriminate|].
  rewrite exec_cons. cbn [forallb].
  intros H. apply andb_prop in H as [Hc Hcs].
  destruct (exec1 env uuid c f) eqn:E; try discriminate; [auto|].
  apply exec1_return in E as [args ->]. discriminate.
Qed.

Lemma prelude_no_return (r : record_decl) :
  forallb (fun c => negb (is_return c)) (prelude_chunks avro_name shortname r)
  = true.
Proof.
  unfold prelude_chunks, class_check, id_chunks, load_chunks.
  destruct (str_in "class" (r_field_names r));
    destruct (r_idfield r) as [i|]; simpl; try reflexivity;
    destruct (String.eqb (shortname (f_name i)) "class"); reflexivity.
Qed.

Lemma load_chunks_no_return (fs : list field_decl) :
  forallb (fun c => negb (is_return c))
          (flat_map (load_chunks avro_name shortname) fs) = true.
Proof.
  apply forallb_flat_map. intros fd. unfold load_chunks.
  destruct (String.eqb _ "class"); reflexivity.
Qed.

(** A call of [fromDoc] that returns has run the three parts of the body
    in turn. *)
Lemma fromDoc_return_inv (r : record_decl) uuid doc b lo root i f :
  r_abstract r = false ->
  fromDoc LoadingOptions load_field expand_url
          (class_unit avro_name shortname r) uuid doc b lo root = Return i f ->
  let env := mkClassEnv (init_params avro_name r) (init_body avro_name r)
                        (r_field_names r) in
  exists f0 f1,
    exec env uuid (prelude_chunks avro_name shortname r) (entry doc b lo root)
    = Next f0
    /\ exec env uuid (flat_map (load_chunks avro_name shortname) (r_fields r)) f0
       = Next f1
    /\ exec env uuid (epilogue_chunks avro_name r) f1 = Return i f.
Proof.
  intros Habs Hret env.
  unfold fromDoc in Hret. rewrite fromDoc_body_unit in Hret by assumption.
  rewrite class_env_unit in Hret by assumption. fold env in Hret.
  rewrite exec_chunks_app in Hret.
  destruct (exec env uuid (prelude_chunks avro_name shortname r) _)
    as [f0| | |i0 f0'|] eqn:Hpre; try discriminate.
  2:{ exfalso. exact (exec_no_return _ _ _ _ _ _ (prelude_no_return r) Hpre). }
  rewrite exec_chunks_app in Hret.
  destruct (exec env uuid (flat_map _ _) f0)
    as [f1| | |i1 f1'|] eqn:Hload; try discriminate.
  2:{ exfalso.
      exact (exec_no_return _ _ _ _ _ _ (load_chunks_no_return _) Hload). }
  exists f0, f1. auto.
Qed.

(** The statements of the fields leave the copy of the input and the
    loading options as they are. *)
Lemma exec_keeps_doc env uuid (cs : list chunk) (f f' : frame LoadingOptions) :
  forallb (fun c => negb (is_return c)) cs = true ->
  exec env uuid cs f = Next f' ->
  _doc f' = _doc f /\ loadingOptions f' = loadingOptions f.
Proof.
  revert f. induction cs as [|c cs IH]; intros f; [intros _ [= <-]; auto|].
  rewrite exec_cons. cbn [forallb].
  intros H. apply andb_prop in H as [Hc Hcs].
  destruct (exec1 env uuid c f) as [f1| | | |] eqn:E; try discriminate.
  intros H. apply IH in H as [Hd Hl]; [|exact Hcs].
  assert (H1 : _doc f1 = _doc f /\ loadingOptions f1 = loadingOptions f).
  { clear -E Hc.
    assert (Hassign : forall x v (g : frame LoadingOptions),
              _doc (assign LoadingOptions x v g) = _doc g
              /\ loadingOptions (assign LoadingOptions x v g) = loadingOptions g).
    { intros x v g. unfold assign.
      destruct (String.eqb x "baseuri"); [auto|].
      destruct (String.eqb x "docRoot"); auto. }
    assert (Htry : forall sn fn ft (g : frame LoadingOptions),
              _doc (try_load LoadingOptions load_field sn fn ft g) = _doc g
              /\ loadingOptions (try_load LoadingOptions load_field sn fn ft g)
                 = loadingOptions g).
    { intros sn fn ft g. unfold try_load.
      destruct (load_field _ _ _ _) as [e|v]; [auto|].
      destruct (Hassign sn v
                  (log_call LoadingOptions
                     (mkCall (doc_get fn (_doc g)) ft (baseuri g)) g))
        as [Ha Hb].
      rewrite Ha, Hb. auto. }
    destruct c; cbn [exec_chunk] in E; try discriminate;
      try (injection E as <-; auto; fail).
    - destruct (doc_get "class" (_doc f)); try discriminate.
      destruct (String.eqb _ _); [injection E as <-; auto|discriminate].
    - destruct (unmodelled safename); [discriminate|].
      destruct optional; [destruct (odict_mem _ _)|];
        injection E as <-; auto.
    - destruct (unmodelled safename); [discriminate|].
      unfold base_from in E.
      destruct (lookup_var _ _ _) as [v|]; [|discriminate].
      destruct v; try (injection E as <-; auto; fail).
      destruct (docRoot f).
      + destruct (lookup_var _ _ _); [|discriminate]. injection E as <-.
        cbn [_doc loadingOptions set_baseuri]. apply Hassign.
      + destruct opt; [|discriminate].
        destruct (lookup_var _ _ _); [|discriminate]. injection E as <-.
        cbn [_doc loadingOptions set_baseuri]. apply Hassign.
    - destruct (scan_keys _ _ _ _ _ _ _ _ _) as [ext errs].
      destruct errs; [injection E as <-; auto|discriminate]. }
  destruct H1. split; congruence.
Qed.

(** When the parameters of [__init__] are in the order of the arguments of
    [cls(...)], every attribute of the returned instance is the variable of
    its field. *)
Lemma aligned_attributes (r : record_decl) uuid doc b lo root i f n :
  r_abstract r = false ->
  aligned avro_name r ->
  NoDup (return_args avro_name r) ->
  fromDoc LoadingOptions load_field expand_url
          (class_unit avro_name shortname r) uuid doc b lo root = Return i f ->
  In n (r_field_names r) -> String.eqb n "class" = false ->
  safe_name avro_name n <> "class_" ->
  odict_get (safe_name avro_name n) (inst_attrs i)
  = lookup_var LoadingOptions (safe_name avro_name n) f.
Proof.
  intros Habs Hal Hnd Hret Hin Hn Hsafe.
  apply fromDoc_return_inv in Hret as (f0 & f1 & _ & _ & Hret);
    [|assumption].
  apply epilogue_return in Hret
    as (_ & _ & _ & _ & _ & _ & args & bound & Hread & Hbind & Hinits).
  simpl in Hbind, Hinits.
  destruct (read_vars_spec _ _ _ Hread) as (Hlen & Hget).
  rewrite bind_params_aligned in Hbind.
  2:{ rewrite Hlen, <- (length_map fst), Hal. reflexivity. }
  injection Hbind as <-. rewrite Hal in Hinits.
  assert (Hattr : InitAttr (safe_name avro_name n) ∈ init_body avro_name r).
  { unfold init_body. apply list_elem_of_In, in_map_iff. exists n.
    rewrite Hn. auto. }
  rewrite (proj1 (run_inits_attr _ _ _ _ _ Hinits Hsafe) Hattr).
  apply Hget; [|exact Hnd].
  unfold return_args. apply in_map.
  apply list_elem_of_In, list_elem_of_filter. split.
  - rewrite Hn. reflexivity.
  - apply list_elem_of_In. exact Hin.
Qed.

(** An id that is present and does not load: its error is appended, its
    variable stays unbound, and the test [if <id> is None] that follows
    stops the call, before any other field is decoded. *)
Lemma invalid_id_unbound (r : record_decl) (i : field_decl) uuid doc b lo root e :
  r_abstract r = false ->
  r_idfield r = Some i ->
  String.eqb (shortname (f_name i)) "class" = false ->
  ordinary (safe_name avro_name (f_name i)) = true ->
  odict_mem (shortname (f_name i)) doc = true ->
  load_field (doc_get (shortname (f_name i)) doc) (name (f_type i)) (VStr b) lo
    = inl e ->
  (str_in "class" (r_field_names r) = true ->
   doc_get "class" doc = VStr (safe_name avro_name (r_name r))) ->
  exists f,
    fromDoc LoadingOptions load_field expand_url
            (class_unit avro_name shortname r) uuid doc b lo root
    = Crash (UnboundLocalError (safe_name avro_name (f_name i))) f
    /\ _errors__ f = [field_error doc (shortname (f_name i)) e]
    /\ calls f = [mkCall (doc_get (shortname (f_name i)) doc)
                         (name (f_type i)) (VStr b)].
Proof.
  intros Habs Hi Hc Ho Hm Hl Hcls.
  pose proof (ordinary_spec _ Ho) as (_ & _ & _ & Hu).
  unfold fromDoc. rewrite fromDoc_body_unit by assumption.
  rewrite exec_chunks_app. unfold prelude_chunks.
  change ([FromDocHeader (safe_name avro_name (r_name r))]
          ++ class_check avro_name r ++ id_chunks avro_name shortname r)
    with ((FromDocHeader (safe_name avro_name (r_name r))
           :: class_check avro_name r) ++ id_chunks avro_name shortname r).
  rewrite exec_chunks_app, class_check_run by exact Hcls.
  unfold id_chunks, load_chunks. rewrite Hi. cbn [f_name f_type f_optional].
  rewrite Hc. cbn [app].
  rewrite exec_cons, load_field_step by exact Hu. cbn [negb orb].
  cbn [_doc set_errors]. rewrite Hm.
  rewrite try_load_ordinary by exact Ho. cbv zeta.
  cbn [_doc baseuri loadingOptions set_errors]. rewrite Hl.
  rewrite exec_cons, id_default_unbound; [|exact Ho|apply lookup_empty].
  eexists. split; [reflexivity|]. split; reflexivity.
Qed.

Lemma examined_split attrs keys k0 :
  first_bare attrs keys = Some k0 ->
  exists keys2, keys = examined attrs keys ++ k0 :: keys2.
Proof.
  unfold first_bare. induction keys as [|k keys IH]; cbn [List.find examined];
    [discriminate|].
  destruct (bare attrs k).
  - intros [= <-]. exists keys. reflexivity.
  - intros H. destruct (IH H) as [keys2 E]. exists keys2.
    cbn [app]. f_equal. exact E.
Qed.

(** C5, as the code has it.  For an input that [fromDoc] turns into an
    instance, every key that is not a declared field contains the namespace
    separator, and the instance's extension-fields map is what storing
    these keys in document order gives: a key is found under its expanded
    URI with its value unless a later undeclared key expands to the same
    URI (the later value then takes its place), and the map holds nothing
    else.  When some undeclared key has no separator, [fromDoc] (once the
    class check and the id block have fallen through) raises the aggregated
    error whose last child is the one "invalid field" error, naming the
    first such key; the keys after that key were not examined: nothing of
    them is stored, and no second "invalid field" error is produced. *)
Theorem undeclared_keys_kept (r : record_decl) uuid doc b lo root :
  r_abstract r = false ->
  let o := fromDoc LoadingOptions load_field expand_url
             (class_unit avro_name shortname r) uuid doc b lo root in
  let attrs := r_field_names r in
  let keys := odict_keys doc in
  let ex := fun k => expand_url k EmptyString lo false false in
  let store := store_extension LoadingOptions expand_url attrs doc lo in
  (forall i f, o = Return i f ->
     (forall k, In k keys -> str_in k attrs = false -> has_char ":" k = true)
     /\ inst_extension_fields i = fold_left store keys []
     /\ (forall keys1 k keys2,
           keys = keys1 ++ k :: keys2 -> str_in k attrs = false ->
           (forall k', In k' keys2 -> str_in k' attrs = false -> ex k' <> ex k) ->
           odict_get (ex k) (inst_extension_fields i) = Some (doc_get k doc))
     /\ (forall u v, odict_get u (inst_extension_fields i) = Some v ->
           exists k, In k keys /\ str_in k attrs = false /\ ex k = u
                     /\ v = doc_get k doc))
  /\ (forall k0 f0,
        first_bare attrs keys = Some k0 ->
        plain_fields avro_name r ->
        exec (class_env_of (class_unit avro_name shortname r)) uuid
             (prelude_chunks avro_name shortname r) (entry doc b lo root)
        = Next f0 ->
        let failures :=
          flat_map (field_failures shortname LoadingOptions load_field
                      doc (baseuri f0) lo) (r_fields r) in
        In k0 keys /\ str_in k0 attrs = false /\ has_char ":" k0 = false
        /\ o = Raise (VExc ("Trying '" +:+ safe_name avro_name (r_name r) +:+ "'")
                           None
                           (failures ++ [invalid_field doc (attrstr_of r) k0]))
                     (outcome_frame o)
        /\ (exists keys2, keys = examined attrs keys ++ k0 :: keys2)
        /\ extension_fields (outcome_frame o)
           = fold_left store (examined attrs keys) []).
Proof.
  intros Habs o attrs keys ex store. split.
  - intros i f Hret. subst o.
    apply fromDoc_return_inv in Hret as (f0 & f1 & Hpre & Hload & Hret);
      [|assumption].
    apply exec_keeps_doc in Hpre as [Hd0 Hl0]; [|apply prelude_no_return].
    apply exec_keeps_doc in Hload as [Hd1 Hl1]; [|apply load_chunks_no_return].
    cbn [_doc loadingOptions entry] in Hd0, Hl0.
    apply epilogue_return in Hret as (_ & _ & Hinv & Hext & _).
    cbn [ce_attrs] in Hinv, Hext.
    rewrite Hd1, Hd0 in Hinv, Hext. rewrite Hl1, Hl0 in Hext.
    fold attrs keys store in Hinv, Hext.
    assert (Hfb : first_bare attrs keys = None).
    { unfold invalid_of in Hinv.
      destruct (first_bare attrs keys); [discriminate|reflexivity]. }
    rewrite (examined_first_bare _ _ Hfb) in Hext.
    split.
    { intros k Hin Hu. unfold first_bare in Hfb.
      pose proof (List.find_none _ _ Hfb k Hin) as Hb.
      unfold bare, undeclared in Hb. rewrite Hu in Hb. cbn [negb andb] in Hb.
      apply negb_false_iff in Hb. exact Hb. }
    split; [exact Hext|]. rewrite Hext. split.
    + intros keys1 k keys2 -> Hu Hne. apply stored_last; assumption.
    + intros u v H. apply stored_only in H as [H|H]; [discriminate|exact H].
  - intros k0 f0 Hfb (Hpi & Hpf & _) Hpre failures.
    pose proof Hfb as Hfind. unfold first_bare in Hfind.
    apply List.find_some in Hfind as [Hin Hb].
    unfold bare, undeclared in Hb. apply andb_prop in Hb as [H1 H2].
    apply negb_true_iff in H1. apply negb_true_iff in H2.
    split; [exact Hin|]. split; [exact H1|]. split; [exact H2|].
    assert (Ho : o = Raise (VExc ("Trying '" +:+ safe_name avro_name (r_name r)
                                    +:+ "'") None
                                 (failures ++ [invalid_field doc (attrstr_of r) k0]))
                           (set_errors LoadingOptions
                              (failures ++ [invalid_field doc (attrstr_of r) k0])
                              (set_extension_fields LoadingOptions
                                 (fold_left store (examined attrs keys) [])
                                 (outcome_frame
                                    (exec (class_env_of
                                             (class_unit avro_name shortname r))
                                          uuid
                                          (flat_map (load_chunks avro_name shortname)
                                                    (r_fields r)) f0))))).
    { subst o. unfold fromDoc, entry in *.
      rewrite fromDoc_body_unit by assumption.
      rewrite exec_chunks_app, Hpre.
      pose proof Hpre as Hpre'.
      apply prelude_next in Hpre' as (Hd & Hlo & _ & He);
        [|exact Hpi|reflexivity].
      cbn [_doc loadingOptions] in Hd, Hlo.
      rewrite exec_chunks_app.
      destruct (load_phase_run
                  (class_env_of (class_unit avro_name shortname r)) uuid
                  (r_fields r) f0 Hpf) as (f1 & -> & Hs & _ & Hf).
      destruct Hs as (Hd1 & Hb1 & Hl1 & _).
      unfold epilogue_chunks. rewrite exec_cons. cbn [exec_chunk].
      rewrite scan_keys_spec.
      rewrite class_env_unit by assumption. cbn [ce_attrs].
      rewrite Hf, He, Hd1, Hd, Hl1, Hlo. cbn [app].
      fold (attrstr_of r). fold attrs keys store failures.
      unfold invalid_of. fold attrs. rewrite Hfb.
      destruct (failures ++ [invalid_field doc (attrstr_of r) k0])
        as [|e0 errs] eqn:E.
      { apply app_eq_nil in E as [_ E]. discriminate. }
      reflexivity. }
    split; [rewrite Ho at 1; rewrite Ho; reflexivity|].
    split; [apply examined_split; exact Hfb|].
    rewrite Ho. reflexivity.
Qed.

Lemma prefix_append (s t : string) : String.prefix s (s +:+ t) = true.
Proof.
  induction s as [|c s IH]; simpl.
  - destruct t; reflexivity.
  - destruct (ascii_dec c c); [exact IH|contradiction].
Qed.

(** An optional id that is absent, with no document root: the id variable
    and the base URI of the rest of the call are "_:" followed by the uuid
    drawn in this call, and the ids of two calls are the same exactly when
    the two draws are. *)
Theorem synthetic_id (r : record_decl) (i : field_decl) doc b lo
    (uuid : string) :
  r_abstract r = false ->
  plain_fields avro_name r ->
  r_idfield r = Some i ->
  f_optional i = true ->
  String.eqb (shortname (f_name i)) "class" = false ->
  odict_mem (shortname (f_name i)) doc = false ->
  (str_in "class" (r_field_names r) = true ->
   doc_get "class" doc = VStr (safe_name avro_name (r_name r))) ->
  let u := class_unit avro_name shortname r in
  let sid := safe_name avro_name (f_name i) in
  let o := fromDoc LoadingOptions load_field expand_url u uuid doc b lo None in
  exists f0,
    exec (class_env_of u) uuid (prelude_chunks avro_name shortname r)
         (entry doc b lo None) = Next f0
    /\ locals f0 !! sid = Some (VStr ("_:" +:+ uuid))
    /\ calls f0 = []
    /\ baseuri (outcome_frame o) = VStr ("_:" +:+ uuid)
    /\ calls (outcome_frame o)
       = flat_map (field_calls shortname doc (VStr ("_:" +:+ uuid))) (r_fields r)
    /\ String.prefix "_:" ("_:" +:+ uuid) = true
    /\ (forall uuid', VStr ("_:" +:+ uuid) = VStr ("_:" +:+ uuid')
                      <-> uuid = uuid').
Proof.
  intros Habs Hplain Hi Hopt Hc Hm Hcls u sid o.
  pose proof (prelude_id_absent (class_env_of u) uuid r i doc b lo
                None Hi Hc (proj1 Hplain i Hi) Hm Hcls) as Hpre.
  cbv zeta in Hpre. rewrite Hopt in Hpre.
  eexists. split; [exact Hpre|].
  split; [cbn [locals set_baseuri set_local]; apply lookup_insert_eq|].
  split; [reflexivity|].
  destruct (fromDoc_after_prelude r uuid doc b lo None _ Habs Hplain Hpre)
    as (Hcalls & Hb & _).
  fold u o in Hcalls, Hb.
  split; [exact Hb|]. split; [exact Hcalls|].
  split; [apply prefix_append|].
  intros uuid'. split; [intros [= H]; exact H|intros ->; reflexivity].
Qed.

(** The id key is absent and a document root is supplied, in a record
    whose field variables are ordinary variables: the id is the document
    root, whether the id is required or optional and whatever uuid the call
    could draw; every field is decoded against it; no "Missing" error is
    raised. *)
Theorem docRoot_supplies_id (r : record_decl) (i : field_decl) doc b lo
    (root uuid : string) :
  r_abstract r = false ->
  plain_fields avro_name r ->
  r_idfield r = Some i ->
  String.eqb (shortname (f_name i)) "class" = false ->
  odict_mem (shortname (f_name i)) doc = false ->
  (str_in "class" (r_field_names r) = true ->
   doc_get "class" doc = VStr (safe_name avro_name (r_name r))) ->
  let u := class_unit avro_name shortname r in
  let sid := safe_name avro_name (f_name i) in
  let o := fromDoc LoadingOptions load_field expand_url
             u uuid doc b lo (Some root) in
  exists f0,
    (forall uuid', exec (class_env_of u) uuid'
                     (prelude_chunks avro_name shortname r)
                     (entry doc b lo (Some root)) = Next f0)
    /\ locals f0 !! sid = Some (VStr root)
    /\ baseuri f0 = VStr root
    /\ calls f0 = []
    /\ calls (outcome_frame o)
       = flat_map (field_calls shortname doc (VStr root)) (r_fields r)
    /\ (forall c, In c (calls (outcome_frame o)) -> call_baseuri c = VStr root)
    /\ baseuri (outcome_frame o) = VStr root
    /\ (forall f, o <> Raise (VExc ("Missing " +:+ shortname (f_name i))
                                   None []) f).
Proof.
  intros Habs Hplain Hi Hc Hm Hcls u sid o.
  pose proof (fun uuid => prelude_id_absent (class_env_of u) uuid r i doc b lo
                            (Some root) Hi Hc (proj1 Hplain i Hi) Hm Hcls)
    as Hpre.
  cbv zeta in Hpre.
  eexists. split; [exact Hpre|].
  split; [cbn [locals set_baseuri set_local]; apply lookup_insert_eq|].
  split; [reflexivity|]. split; [reflexivity|].
  destruct (fromDoc_after_prelude r uuid doc b lo (Some root) _ Habs Hplain
              (Hpre uuid))
    as (Hcalls & Hb & _ & Hraise & Hnone).
  fold u o in Hcalls, Hb, Hraise, Hnone. simpl in Hcalls, Hb.
  split; [exact Hcalls|].
  split.
  { intros c Hin. rewrite Hcalls in Hin. apply in_flat_map in Hin
      as (fd & _ & Hin). unfold field_calls in Hin.
    destruct (attempted shortname doc fd); [|contradiction].
    destruct Hin as [<-|[]]. reflexivity. }
  split; [exact Hb|].
  intros f Ho.
  match type of Hraise with (?l <> [] -> _) => destruct l eqn:Hl end.
  - exact (Hnone eq_refl _ _ Ho).
  - rewrite Hraise in Ho by discriminate. discriminate Ho.
Qed.

End FromDoc.

(** *** The emitted [save] *)

Section Save.

Variable avro_name : string -> string.
Variable shortname : string -> string.
Variable LoadingOptions : Type.
Variable save_relative_uri :
  value -> value -> bool -> option Z -> bool -> value.
Variable save : value -> bool -> value -> bool -> value.
Variable prefix_url : string -> LoadingOptions -> string.
Variable namespaces : LoadingOptions -> value.

(** C6, as the code has it: the save statement that [declare_field] emits
    for a field whose value is present serializes it against the [base_url]
    argument of [save] when the field is the record's id field or the record
    has no id field, and against the record's own id attribute otherwise; a
    URI-flagged field goes through [save_relative_uri] with the flags of its
    type, any other field through [save], with the same base. *)
Theorem save_base_choice (n : string) (t : TypeDef) (doc : string) (o : bool)
    (g : PythonCodeGen) (self : Instance LoadingOptions) (top : bool)
    (base_url : value) (rel : bool) (r : odict value) (v b : value) :
  current_class_is_abstract g = false ->
  String.eqb (shortname n) "class" = false ->
  self_attr LoadingOptions self (safe_name avro_name n) = inr v ->
  v <> VNone ->
  (if String.eqb n (idfield g) || String.eqb (idfield g) EmptyString
   then inr base_url
   else self_attr LoadingOptions self (safe_name avro_name (idfield g)))
  = inr b ->
  exists c,
    serializer (declare_field avro_name shortname n t doc o g)
      = serializer g ++ [c]
    /\ exec_save_chunk LoadingOptions save_relative_uri save prefix_url
         namespaces self top base_url rel c r =
       if is_uri t then
         let u := save_relative_uri v b (scoped_id t) (ref_scope t) rel in
         if truthy u then SNext (odict_set (strip (shortname n)) u r)
         else SNext r
       else SNext (odict_set (shortname n) (save v false b rel) r).
Proof.
  intros Habs Hc Hv Hnn Hb.
  unfold declare_field. rewrite Habs, Hc. simpl idfield.
  destruct (is_uri t).
  - eexists. split; [reflexivity|]. simpl. rewrite Hv.
    destruct (String.eqb n (idfield g) || String.eqb (idfield g) EmptyString);
      simpl.
    + injection Hb as <-. destruct v; try reflexivity. contradiction.
    + rewrite Hb. destruct v; try reflexivity. contradiction.
  - eexists. split; [reflexivity|]. simpl. rewrite Hv.
    destruct (String.eqb n (idfield g) || String.eqb (idfield g) EmptyString);
      simpl.
    + injection Hb as <-. destruct v; try reflexivity. contradiction.
    + rewrite Hb. destruct v; try reflexivity. contradiction.
Qed.

End Save.

(** *** The loader compiler and the registry *)

Section TypeDeclarationInduction.

Variable P : type_declaration -> Prop.
Hypothesis HSeq : forall alts, Forall P alts -> P (TSeq alts).
Hypothesis HMap : forall ty items nm syms,
  match items with Some it => P it | None => True end ->
  P (TMap ty items nm syms).
Hypothesis HStr : forall s, P (TStr s).

Fixpoint type_declaration_induction (d : type_declaration) : P d :=
  match d with
  | TSeq alts =>
      HSeq alts
        ((fix all (l : list type_declaration) : Forall P l :=
            match l with
            | [] => List.Forall_nil P
            | x :: l' =>
                List.Forall_cons P x l' (type_declaration_induction x) (all l')
            end) alts)
  | TMap ty items nm syms =>
      HMap ty items nm syms
        (match items as o return match o with Some it => P it | None => True end
         with
         | Some it => type_declaration_induction it
         | None => I
         end)
  | TStr s => HStr s
  end.

End TypeDeclarationInduction.

Lemma extends_refl g : extends g g.
Proof. split; auto. Qed.

Lemma extends_trans g1 g2 g3 : extends g1 g2 -> extends g2 g3 -> extends g1 g3.
Proof. intros [H1 H2] [H3 H4]. split; auto. Qed.

Lemma prims_registered_extends g g' :
  extends g g' -> prims_registered g -> prims_registered g'.
Proof. intros [H _] Hp u p Hin. apply H. eapply Hp; eauto. Qed.

Create HintDb registry.
#[local] Hint Resolve extends_refl extends_trans : registry.

(** One step of a generator computation that is known to return. *)
Tactic Notation "run_bind" constr(m) "as" simple_intropattern(a)
    simple_intropattern(g) ident(E) :=
  unfold gbind at 1; destruct m as [?|[a g]] eqn:E; [discriminate|].

Lemma odict_get_app_new {A} (k k' : string) (v : A) (m : odict A) :
  odict_get k (m ++ [(k', v)]) =
  match odict_get k m with
  | Some x => Some x
  | None => if String.eqb k k' then Some v else None
  end.
Proof.
  induction m as [|[k0 v0] m IH]; simpl; [reflexivity|].
  destruct (String.eqb k k0); [reflexivity|exact IH].
Qed.

Lemma odict_get_In {A} (k : string) (v : A) (m : odict A) :
  odict_get k m = Some v -> In (k, v) m.
Proof.
  induction m as [|[k0 v0] m IH]; simpl; [discriminate|].
  destruct (String.eqb k k0) eqn:E.
  - intros [= <-]. apply String.eqb_eq in E. subst. auto.
  - auto.
Qed.

Lemma odict_get_None {A} (k : string) (m : odict A) :
  odict_get k m = None -> k ∉ odict_keys m.
Proof.
  induction m as [|[k0 v0] m IH]; simpl.
  - intros _ H. inversion H.
  - destruct (String.eqb_spec k k0) as [->|Hne]; [discriminate|].
    intros H Hin. apply elem_of_cons in Hin as [?|Hin]; [contradiction|].
    exact (IH H Hin).
Qed.

(** [declare_type] always returns; what it returns is the entry now stored
    under the candidate's name. *)
Lemma declare_type_spec (t : TypeDef) (g : PythonCodeGen) :
  exists t' g',
    declare_type t g = inr (t', g')
    /\ odict_get (name t) (collected_types g') = Some t'
    /\ extends g g'
    /\ (registry_wf g -> registry_wf g' /\ name t' = name t)
    /\ (odict_get (name t) (collected_types g) = None -> t' = t).
Proof.
  unfold declare_type.
  destruct (odict_get (name t) (collected_types g)) as [e|] eqn:E.
  - exists e, g. split; [reflexivity|]. split; [exact E|].
    split; [apply extends_refl|]. split; [|discriminate].
    intros Hwf. split; [assumption|]. exact (proj1 Hwf _ _ E).
  - eexists. eexists. split; [reflexivity|]. simpl.
    split; [rewrite odict_get_app_new, E, String.eqb_refl; reflexivity|].
    split.
    { split; simpl; auto. intros k t0 H. rewrite odict_get_app_new, H.
      reflexivity. }
    split; [|reflexivity].
    intros [Hwf Hnd]. split; [|reflexivity]. split.
    + intros k t0. simpl. rewrite odict_get_app_new.
      destruct (odict_get k (collected_types g)) eqn:Ek.
      * intros [= <-]. auto.
      * destruct (String.eqb k (name t)) eqn:Ekn; [|discriminate].
        intros [= <-]. apply String.eqb_eq in Ekn. auto.
    + simpl. unfold odict_keys. rewrite map_app. simpl.
      apply NoDup_app. split; [exact Hnd|]. split; [|apply NoDup_singleton].
      intros k Hk Hk'. apply list_elem_of_singleton in Hk'. subst k.
      apply odict_get_None in E. contradiction.
Qed.

Lemma declare_type_stable (t t' : TypeDef) (g : PythonCodeGen) :
  odict_get (name t) (collected_types g) = Some t' ->
  declare_type t g = inr (t', g).
Proof. intros H. unfold declare_type. rewrite H. reflexivity. Qed.

Lemma declare_after {A} (m : Gen A) (f : A -> TypeDef) g a g1 t g' :
  m g = inr (a, g1) ->
  stable_run m g a g1 ->
  declare_type (f a) g1 = inr (t, g') ->
  stable_run (gbind m (fun x => declare_type (f x))) g t g'
  /\ (registry_wf g -> name t = name (f a) /\ registered t g')
  /\ (odict_get (name (f a)) (collected_types g1) = None -> t = f a).
Proof.
  intros Hm (He & Hw & Hs) Hd.
  destruct (declare_type_spec (f a) g1) as (t' & g'' & Hd' & Hl & He' & Hw' & Hn).
  rewrite Hd in Hd'. injection Hd' as <- <-.
  split; [|split].
  - split; [eauto with registry|].
    split; [intros H; apply Hw'; auto|].
    intros g2 Hg2. unfold gbind.
    rewrite (Hs g2) by (eauto with registry).
    apply declare_type_stable. destruct Hg2 as [Hg2 _]. auto.
  - intros H. destruct (Hw' (Hw H)) as [_ Hname]. split; [exact Hname|].
    unfold registered. rewrite Hname. exact Hl.
  - exact Hn.
Qed.

Lemma gret_stable {A} (a : A) (g : PythonCodeGen) : stable_run (gret a) g a g.
Proof. split; [apply extends_refl|]. split; auto. Qed.

Section Compiler.

Variable avro_name : string -> string.
Variable shortname : string -> string.

Local Abbreviation tl := (type_loader avro_name shortname).
Local Abbreviation tl_each := (type_loader_each avro_name shortname).

Lemma type_loader_seq (alts : list type_declaration) (g : PythonCodeGen) :
  tl (TSeq alts) g =
  gbind (tl_each alts) (fun sub => declare_type (union_of sub)) g.
Proof. reflexivity. Qed.

Lemma type_loader_map ty items nm syms :
  tl (TMap ty items nm syms) =
  if str_in ty ["array"; "https://w3id.org/cwl/salad#array"] then
    match items with
    | None => graise (KeyError "items")
    | Some it => gbind (tl it) (fun i => declare_type (array_of i))
    end
  else if str_in ty ["enum"; "https://w3id.org/cwl/salad#enum"] then
    match syms with
    | None => graise (KeyError "symbols")
    | Some ss =>
        gbind (add_vocab_symbols shortname ss)
          (fun _ => match nm with
                    | None => graise (KeyError "name")
                    | Some n => declare_type (enum_loader avro_name n ss)
                    end)
    end
  else if str_in ty ["record"; "https://w3id.org/cwl/salad#record"] then
    match nm with
    | None => graise (KeyError "name")
    | Some n => declare_type (record_loader avro_name n)
    end
  else graise (SchemaException ("wft " +:+ ty)).
Proof. reflexivity. Qed.

Lemma type_loader_str s g :
  tl (TStr s) g =
  match odict_get s prims with
  | Some t => inr (t, g)
  | None =>
      match odict_get (safe_name avro_name s +:+ "Loader") (collected_types g) with
      | Some t => inr (t, g)
      | None => inl (KeyError (safe_name avro_name s +:+ "Loader"))
      end
  end.
Proof.
  change (tl (TStr s) g) with
    (match odict_get s prims with
     | Some t => gret t
     | None =>
         fun g =>
           match odict_get (safe_name avro_name s +:+ "Loader")
                           (collected_types g) with
           | Some t => inr (t, g)
           | None => inl (KeyError (safe_name avro_name s +:+ "Loader"))
           end
     end g).
  destruct (odict_get s prims); reflexivity.
Qed.

Lemma add_vocab_spec term uri g u g' :
  add_vocab term uri g = inr (u, g') ->
  extends g g' /\ collected_types g' = collected_types g
  /\ vocab g' !! term = Some uri.
Proof.
  unfold add_vocab. destruct (vocab g !! term) as [uri'|] eqn:E.
  - destruct (String.eqb_spec uri uri') as [->|]; [|discriminate].
    intros [= _ <-]. auto using extends_refl.
  - intros [= _ <-]. simpl. split; [|split; [reflexivity|]].
    + split; simpl; auto. intros k u0 Hk.
      rewrite lookup_insert_ne; [exact Hk|]. intros <-. congruence.
    + apply lookup_insert_eq.
Qed.

Lemma add_vocab_stable term uri g :
  vocab g !! term = Some uri -> add_vocab term uri g = inr (tt, g).
Proof.
  intros H. unfold add_vocab. rewrite H, String.eqb_refl. reflexivity.
Qed.

Lemma add_vocab_symbols_spec syms g u g' :
  add_vocab_symbols shortname syms g = inr (u, g') ->
  extends g g' /\ collected_types g' = collected_types g
  /\ (forall g2, extends g' g2 ->
        add_vocab_symbols shortname syms g2 = inr (tt, g2)).
Proof.
  revert g. induction syms as [|sym syms IH]; intros g; simpl.
  - intros [= _ <-]. auto using extends_refl.
  - run_bind (add_vocab (shortname sym) sym g) as [] g1 E1.
    intros H. apply add_vocab_spec in E1 as (He1 & Hc1 & Hv1).
    apply IH in H as (He & Hc & Hs).
    split; [eauto with registry|]. split; [congruence|].
    intros g2 Hg2. unfold gbind.
    rewrite add_vocab_stable; [auto|].
    destruct Hg2 as [_ Hg2]. destruct He as [_ He]. auto.
Qed.

Lemma registered_extends t g g' :
  extends g g' -> registered t g -> registered t g'.
Proof. intros [H _] Hr. apply H. exact Hr. Qed.

Lemma type_loader_each_run (alts : list type_declaration) :
  Forall (fun d => forall g t g', tl d g = inr (t, g') ->
            stable_run (tl d) g t g'
            /\ (registry_wf g -> prims_registered g -> registered t g')) alts ->
  forall g subs g', tl_each alts g = inr (subs, g') ->
    stable_run (tl_each alts) g subs g'
    /\ (registry_wf g -> prims_registered g ->
        Forall (fun s => registered s g') subs).
Proof.
  induction 1 as [|d alts Hd _ IH]; intros g subs g'; simpl.
  - intros [= <- <-]. split; [apply gret_stable|]. intros _ _. constructor.
  - run_bind (tl d g) as s g1 E1.
    run_bind (tl_each alts g1) as r g2 E2.
    intros [= <- <-].
    destruct (Hd _ _ _ E1) as ((He1 & Hw1 & Hs1) & Hr1).
    destruct (IH _ _ _ E2) as ((He2 & Hw2 & Hs2) & Hr2).
    split.
    + split; [eauto with registry|]. split; [auto|].
      intros g3 Hg3. unfold gbind.
      rewrite (Hs1 g3) by (eauto with registry).
      rewrite (Hs2 g3) by assumption. reflexivity.
    + intros Hwf Hp. constructor.
      * eapply registered_extends; eauto.
      * apply Hr2; [auto|]. eapply prims_registered_extends; eauto.
Qed.

Lemma type_loader_run (d : type_declaration) :
  forall g t g', tl d g = inr (t, g') ->
    stable_run (tl d) g t g'
    /\ (registry_wf g -> prims_registered g -> registered t g').
Proof.
  induction d as [alts IH|ty items nm syms IH|s] using type_declaration_induction;
    intros g t g'.
  - rewrite type_loader_seq. run_bind (tl_each alts g) as subs g1 E.
    intros Hd.
    destruct (type_loader_each_run alts IH _ _ _ E) as (Hst & _).
    destruct (declare_after (tl_each alts) union_of g subs g1 t g' E Hst Hd)
      as (H1 & H2 & _).
    split; [exact H1|]. intros Hwf _. apply H2. exact Hwf.
  - rewrite type_loader_map.
    destruct (str_in ty ["array"; "https://w3id.org/cwl/salad#array"]) eqn:Ea.
    { destruct items as [it|]; [|discriminate].
      run_bind (tl it g) as i g1 E.
      intros Hd. destruct (IH _ _ _ E) as (Hst & _).
      destruct (declare_after (tl it) array_of g i g1 t g' E Hst Hd)
        as ((He & Hw & Hs) & H2 & _).
      split; [|intros Hwf _; apply H2; exact Hwf].
      split; [exact He|]. split; [exact Hw|].
      intros g2 Hg2. apply Hs. exact Hg2. }
    destruct (str_in ty ["enum"; "https://w3id.org/cwl/salad#enum"]) eqn:Ee.
    { destruct syms as [ss|]; [|discriminate].
      run_bind (add_vocab_symbols shortname ss g) as [] g1 E.
      destruct nm as [n|]; [|discriminate].
      intros Hd.
      destruct (add_vocab_symbols_spec _ _ _ _ E) as (He1 & Hc1 & Hs1).
      assert (Hst : stable_run (add_vocab_symbols shortname ss) g tt g1).
      { split; [exact He1|]. split; [|exact Hs1].
        unfold registry_wf. rewrite Hc1. auto. }
      destruct (declare_after (add_vocab_symbols shortname ss)
                  (fun _ => enum_loader avro_name n ss) g tt g1 t g' E Hst Hd)
        as ((He & Hw & Hs) & H2 & _).
      split; [|intros Hwf _; apply H2; exact Hwf].
      split; [exact He|]. split; [exact Hw|].
      intros g2 Hg2. apply Hs. exact Hg2. }
    destruct (str_in ty ["record"; "https://w3id.org/cwl/salad#record"]) eqn:Er;
      [|discriminate].
    destruct nm as [n|]; [|discriminate].
    intros Hd.
    destruct (declare_after (gret tt) (fun _ => record_loader avro_name n)
                g tt g t g' eq_refl (gret_stable tt g) Hd)
      as ((He & Hw & Hs) & H2 & _).
    split; [|intros Hwf _; apply H2; exact Hwf].
    split; [exact He|]. split; [exact Hw|].
    intros g2 Hg2. apply Hs. exact Hg2.
  - rewrite type_loader_str. destruct (odict_get s prims) as [p|] eqn:Ep.
    + intros [= <- <-]. split.
      * split; [apply extends_refl|]. split; [auto|].
        intros g2 _. rewrite type_loader_str, Ep. reflexivity.
      * intros _ Hp. apply odict_get_In in Ep. eapply Hp. eauto.
    + destruct (odict_get (safe_name avro_name s +:+ "Loader")
                          (collected_types g)) as [e|] eqn:El; [|discriminate].
      intros [= <- <-]. split.
      * split; [apply extends_refl|]. split; [auto|].
        intros g2 [Hg2 _]. rewrite type_loader_str, Ep, (Hg2 _ _ El).
        reflexivity.
      * intros Hwf _. unfold registered. rewrite (proj1 Hwf _ _ El). exact El.
Qed.

Lemma type_loader_each_order (alts : list type_declaration) :
  forall g subs g', tl_each alts g = inr (subs, g') ->
    Forall2 (fun alt s => exists gi gi', tl alt gi = inr (s, gi')) alts subs.
Proof.
  induction alts as [|d alts IH]; intros g subs g'; simpl.
  - intros [= <- <-]. constructor.
  - run_bind (tl d g) as s g1 E1.
    run_bind (tl_each alts g1) as r g2 E2.
    intros [= <- <-]. constructor; eauto.
Qed.

(** C2: two declarations that compile to the same canonical name get the
    same registry entry, whatever was compiled in between; compiling either
    of them again returns that entry and leaves the registry as it is; the
    registry holds one entry per name; and the name of a union or an array
    loader is a function of its kind and of its members' names. *)
Theorem identical_shapes_share_entry (d1 d2 : type_declaration)
    (g g1 gm g2 : PythonCodeGen) (t1 t2 : TypeDef) :
  registry_wf g -> prims_registered g ->
  tl d1 g = inr (t1, g1) ->
  extends g1 gm -> registry_wf gm ->
  tl d2 gm = inr (t2, g2) ->
  name t1 = name t2 ->
  t1 = t2
  /\ registered t1 g2
  /\ NoDup (odict_keys (collected_types g2))
  /\ tl d1 g2 = inr (t1, g2)
  /\ tl d2 g2 = inr (t2, g2)
  /\ (forall alts, d1 = TSeq alts ->
        exists subs ga,
          tl_each alts g = inr (subs, ga)
          /\ name t1 = "union_of_" +:+ join "_or_" (map name subs))
  /\ (forall ty it nm syms,
        d1 = TMap ty (Some it) nm syms ->
        str_in ty ["array"; "https://w3id.org/cwl/salad#array"] = true ->
        exists i ga,
          tl it g = inr (i, ga) /\ name t1 = "array_of_" +:+ name i).
Proof.
  intros Hwf Hp H1 Hext Hwfm H2 Hname.
  destruct (type_loader_run d1 _ _ _ H1) as ((He1 & Hw1 & Hs1) & Hr1).
  destruct (type_loader_run d2 _ _ _ H2) as ((He2 & Hw2 & Hs2) & Hr2).
  assert (Hpm : prims_registered gm).
  { eapply prims_registered_extends; [|exact Hp].
    eauto with registry. }
  assert (R1 : registered t1 g2).
  { eapply registered_extends; [|apply Hr1; assumption].
    eauto with registry. }
  assert (R2 : registered t2 g2) by (apply Hr2; assumption).
  split.
  { unfold registered in R1, R2. rewrite Hname in R1. congruence. }
  split; [exact R1|].
  split; [apply Hw2; assumption|].
  split; [apply Hs1; eauto with registry|].
  split; [apply Hs2; apply extends_refl|].
  split.
  - intros alts ->.
    rewrite type_loader_seq in H1. unfold gbind in H1.
    destruct (tl_each alts g) as [e|[subs ga]] eqn:Hsub; [discriminate|].
    exists subs, ga. split; [reflexivity|].
    destruct (type_loader_each_run alts) with (g := g) (subs := subs) (g' := ga)
      as (Hst & _); [|exact Hsub|].
    { apply List.Forall_forall. intros d _. apply type_loader_run. }
    destruct (declare_after (tl_each alts) union_of g subs ga t1 g1 Hsub Hst H1)
      as (_ & Hn & _).
    apply Hn. exact Hwf.
  - intros ty it nm syms -> Harr.
    rewrite type_loader_map, Harr in H1. unfold gbind in H1.
    destruct (tl it g) as [e|[i ga]] eqn:Hit; [discriminate|].
    exists i, ga. split; [reflexivity|].
    destruct (type_loader_run it _ _ _ Hit) as (Hst & _).
    destruct (declare_after (tl it) array_of g i ga t1 g1 Hit Hst H1)
      as (_ & Hn & _).
    apply Hn. exact Hwf.
Qed.

(** C3, as the code has it: when the alternatives compile, the union
    compiles; its members are the compiled alternatives in declared order;
    its canonical name is "union_of_" followed by the member names joined by
    "_or_" in that order; when that name is new to the registry the result
    is the union loader over exactly those members, in that order; and two
    unions whose joined member names differ are distinct descriptors. *)
Theorem union_members_in_declared_order (alts : list type_declaration)
    (g g1 : PythonCodeGen) (subs : list TypeDef) :
  registry_wf g ->
  tl_each alts g = inr (subs, g1) ->
  exists t g',
    tl (TSeq alts) g = inr (t, g')
    /\ Forall2 (fun alt s => exists gi gi', tl alt gi = inr (s, gi')) alts subs
    /\ name t = "union_of_" +:+ join "_or_" (map name subs)
    /\ (odict_get (name (union_of subs)) (collected_types g1) = None ->
        t = union_of subs
        /\ init t = "_UnionLoader((" +:+ join ", " (map name subs) +:+ ",))")
    /\ registered t g'
    /\ (forall alts' gb gb1 gb' subs' t',
          registry_wf gb ->
          tl_each alts' gb = inr (subs', gb1) ->
          tl (TSeq alts') gb = inr (t', gb') ->
          join "_or_" (map name subs) <> join "_or_" (map name subs') ->
          t <> t').
Proof.
  intros Hwf Hsub.
  destruct (declare_type_spec (union_of subs) g1) as (t & g' & Hd & _).
  assert (Hall : forall l, Forall (fun d => forall g t g',
            tl d g = inr (t, g') ->
            stable_run (tl d) g t g'
            /\ (registry_wf g -> prims_registered g -> registered t g')) l).
  { intros l. apply List.Forall_forall. intros d _. apply type_loader_run. }
  destruct (type_loader_each_run alts (Hall alts) _ _ _ Hsub) as (Hst & _).
  destruct (declare_after (tl_each alts) union_of g subs g1 t g' Hsub Hst Hd)
    as (_ & Hn & Hfresh).
  destruct (Hn Hwf) as (Hname & Hreg).
  exists t, g'.
  split; [rewrite type_loader_seq; unfold gbind; rewrite Hsub; exact Hd|].
  split; [eapply type_loader_each_order; eauto|].
  split; [exact Hname|].
  split; [intros Hf; rewrite (Hfresh Hf); auto|].
  split; [exact Hreg|].
  intros alts' gb gb1 gb' subs' t' Hwf' Hsub' Ht' Hne ->.
  rewrite type_loader_seq in Ht'. unfold gbind in Ht'. rewrite Hsub' in Ht'.
  destruct (type_loader_each_run alts' (Hall alts') _ _ _ Hsub') as (Hst' & _).
  destruct (declare_after (tl_each alts') union_of gb subs' gb1 t' gb'
              Hsub' Hst' Ht') as (_ & Hn' & _).
  destruct (Hn' Hwf') as (Hname' & _).
  rewrite Hname in Hname'. simpl in Hname'.
  injection Hname' as Hj. contradiction.
Qed.

End Compiler.

Lemma initial_gen_ok : registry_wf initial_gen /\ prims_registered initial_gen.
Proof.
  split; [split|].
  - intros k t. vm_compute collected_types.
    simpl.
    repeat match goal with
           | |- context [String.eqb k ?s] =>
               destruct (String.eqb_spec k s) as [->|_];
               [intros [= <-]; reflexivity|]
           end.
    discriminate.
  - apply (bool_decide_unpack _). vm_compute. exact I.
  - intros u p Hin. simpl in Hin.
    repeat (destruct Hin as [[= <- <-]|Hin]; [reflexivity|]).
    contradiction.
Qed.

Lemma type_loader_wf avro_name shortname d g t g' :
  registry_wf g -> type_loader avro_name shortname d g = inr (t, g') ->
  registry_wf g'.
Proof.
  intros Hwf H. destruct (type_loader_run _ _ d _ _ _ H) as ((_ & Hw & _) & _).
  auto.
Qed.

(** *** Concrete runs *)

Lemma Pair_plain : plain_fields Demo.avro_name Demo.Pair.
Proof.
  split; [intros i [=]|]. split.
  - intros fd [<-|[<-|[]]]; reflexivity.
  - intros n [<-|[<-|[]]] _; reflexivity.
Qed.

Lemma Named_plain : plain_fields Demo.avro_name Demo.Named.
Proof.
  split; [intros i [= <-]; reflexivity|]. split.
  - intros fd [<-|[]]; reflexivity.
  - intros n [<-|[<-|[]]] _; reflexivity.
Qed.

Lemma Node_plain : plain_fields Demo.avro_name Demo.Node.
Proof.
  split; [intros i [= <-]; reflexivity|]. split.
  - intros fd [<-|[<-|[<-|[]]]]; reflexivity.
  - intros n [<-|[<-|[<-|[<-|[]]]]] H; first [reflexivity | discriminate H].
Qed.

(** Two independently invalid fields: one error, two children. *)
Lemma field_phase_aggregates_witness :
  let doc := [("a", VInt 2); ("b", VInt 1)] in
  exists e f,
    Demo.load Demo.Pair "u1" doc "base" None = Raise e f
    /\ e = VExc "Trying 'Pair'" None
             [VExc "the `a` field is not valid because:"
                   (Some (mkSourceLine doc "a"))
                   [VExc "Expected a strtype" None []];
              VExc "the `b` field is not valid because:"
                   (Some (mkSourceLine doc "b"))
                   [VExc "Expected a strtype" None []]]
    /\ length (exc_children e) = 2.
Proof.
  intros doc. do 2 eexists.
  destruct (field_phase_aggregates
              Demo.avro_name Demo.shortname unit Demo.load_field
              Demo.expand_url Demo.Pair "u1" doc "base" tt None _
              eq_refl Pair_plain eq_refl) as (_ & _ & _ & H & _).
  split; [apply H; discriminate|]. split; reflexivity.
Defined.

Lemma class_mismatch_is_fatal_witness :
  Demo.load Demo.Node "u1" [("class", VStr "Other"); ("ref", VInt 1)]
            "base" None
  = Raise (VExc "Not a Node" None [])
          (entry [("class", VStr "Other"); ("ref", VInt 1)] "base" tt None).
Proof.
  apply (class_mismatch_is_fatal Demo.avro_name Demo.shortname unit
           Demo.load_field Demo.expand_url Demo.Node "u1"
           [("class", VStr "Other"); ("ref", VInt 1)] "base" tt None
           eq_refl eq_refl).
  discriminate.
Defined.

(** An undeclared key with the separator is kept; the record has no id. *)
Lemma undeclared_keys_kept_witness :
  let doc := [("b", VStr "x"); ("ex:a", VInt 1); ("ex:b", VInt 2)] in
  exists i f,
    Demo.load Demo.Pair "u1" doc "base" None = Return i f
    /\ inst_extension_fields i = [("ex:a", VInt 1); ("ex:b", VInt 2)]
    /\ odict_get "ex:a" (inst_extension_fields i) = Some (VInt 1).
Proof.
  intros doc. unfold Demo.load.
  assert (E : exists i f,
            fromDoc unit Demo.load_field Demo.expand_url
                    (class_unit Demo.avro_name Demo.shortname Demo.Pair)
                    "u1" doc "base" tt None = Return i f)
    by (vm_compute; eauto).
  destruct E as (i & f & E). exists i, f. split; [exact E|].
  pose proof (undeclared_keys_kept Demo.avro_name Demo.shortname unit
                Demo.load_field Demo.expand_url Demo.Pair "u1" doc "base" tt
                None eq_refl) as H.
  cbv zeta in H. destruct H as [H _].
  specialize (H i f E). destruct H as (_ & Hext & Hget & _).
  split.
  - rewrite Hext. vm_compute. reflexivity.
  - apply (Hget [ "b" ] "ex:a" [ "ex:b" ] eq_refl eq_refl).
    intros k' [<-|[]] _. discriminate.
Defined.

(** C5, as stated, fails where two undeclared keys expand to the same URI:
    both carry the separator, the document loads, and the value of the
    first of them is not in the instance's extension-fields map. *)
Lemma colliding_keys_keep_last :
  let doc := [("b", VStr "x"); ("ex:a", VInt 1); ("http://e/a", VInt 2)] in
  exists i f,
    fromDoc unit Demo.load_field Demo.expand_ex
            (class_unit Demo.avro_name Demo.shortname Demo.Pair)
            "u1" doc "base" tt None = Return i f
    /\ In "ex:a" (odict_keys doc)
    /\ str_in "ex:a" (r_field_names Demo.Pair) = false
    /\ has_char ":" "ex:a" = true
    /\ Demo.expand_ex "ex:a" EmptyString tt false false = "http://e/a"
    /\ inst_extension_fields i = [("http://e/a", VInt 2)]
    /\ odict_get (Demo.expand_ex "ex:a" EmptyString tt false false)
                 (inst_extension_fields i)
       <> Some (doc_get "ex:a" doc)
    /\ forall u, odict_get u (inst_extension_fields i) <> Some (VInt 1).
Proof.
  vm_compute. do 2 eexists. split; [reflexivity|].
  split; [auto|]. split; [reflexivity|]. split; [reflexivity|].
  split; [reflexivity|]. split; [reflexivity|].
  split; [discriminate|].
  intros u. destruct u as [|c u]; [discriminate|].
  repeat (match goal with |- context [match ?x with _ => _ end] =>
            destruct x; try discriminate end).
Qed.

(** C9, on the code: an id field named [docRoot].  The input has no id key
    and a document root is supplied, yet [fromDoc] raises "Missing
    docRoot": the statement of the field has set [docRoot] to [None]
    before the id block tests it.  And a field named [baseuri] rebinds the
    base URI: the field after it is decoded against the loaded value, not
    against the document root. *)
Theorem docRoot_named_id_is_missing :
  (let doc := [("label", VStr "l")] in
   let o := Demo.load Demo.Rooted "u1" doc "base" (Some "http://x/doc") in
   o = Raise (VExc "Missing docRoot" None []) (outcome_frame o)
   /\ odict_mem "docRoot" doc = false
   /\ calls (outcome_frame o) = [])
  /\ (let doc := [("baseuri", VStr "http://other/"); ("label", VStr "l")] in
      let o := Demo.load Demo.Based "u1" doc "base" (Some "http://x/doc") in
      odict_mem "id" doc = false
      /\ calls (outcome_frame o)
         = [mkCall (VStr "http://other/") "strtype" (VStr "http://x/doc");
            mkCall (VStr "l") "strtype" (VStr "http://other/")]).
Proof. vm_compute. repeat split; reflexivity. Qed.

Lemma docRoot_supplies_id_witness :
  let doc := [("label", VStr "x")] in
  let o := Demo.load Demo.Named "u1" doc "base" (Some "http://x/doc") in
  calls (outcome_frame o)
    = [mkCall (VStr "x") "strtype" (VStr "http://x/doc")]
  /\ baseuri (outcome_frame o) = VStr "http://x/doc"
  /\ (forall f, o <> Raise (VExc "Missing id" None []) f).
Proof.
  intros doc o.
  destruct (docRoot_supplies_id
              Demo.avro_name Demo.shortname unit Demo.load_field
              Demo.expand_url Demo.Named
              (mkField "id" Demo.uri_strtype EmptyString false)
              doc "base" tt "http://x/doc" "u1"
              eq_refl Named_plain eq_refl eq_refl eq_refl
              ltac:(intros H; vm_compute in H; discriminate H))
    as (f0 & _ & _ & _ & _ & H1 & _ & H2 & H3).
  split; [|split; [|exact H3]].
  - etransitivity; [exact H1|]. vm_compute. reflexivity.
  - exact H2.
Defined.

Lemma synthetic_id_witness :
  let doc := [("class", VStr "Node"); ("ref", VStr "x")] in
  baseuri (outcome_frame (Demo.load Demo.Node "u1" doc "base" None))
    = VStr "_:u1"
  /\ (VStr "_:u1" = VStr "_:u2" <-> "u1" = "u2").
Proof.
  intros doc.
  destruct (synthetic_id
              Demo.avro_name Demo.shortname unit Demo.load_field
              Demo.expand_url Demo.Node
              (mkField "id" Demo.uri_strtype EmptyString true)
              doc "base" tt "u1"
              eq_refl Node_plain eq_refl eq_refl eq_refl eq_refl
              (fun _ => eq_refl))
    as (f0 & _ & _ & _ & H1 & _ & _ & H2).
  exact (conj H1 (H2 "u2")).
Defined.

(** C10, on the code: the variable of an absent optional field is [None]
    and its loader is not called, but [cls(...)] passes the variables by
    position, in the order of the field names, to an [__init__] whose
    parameters are the required fields followed by the optional ones.  With
    the optional field [a] declared before the required field [b], the input
    [{b: "x"}] loads into an instance whose attribute [a] is ["x"] and
    whose attribute [b] is [None]. *)
Theorem optional_absent_attribute_misbound :
  let doc := [("b", VStr "x")] in
  let o := Demo.load Demo.Pair "u1" doc "base" None in
  locals (outcome_frame o) !! "a" = Some VNone
  /\ calls (outcome_frame o) = [mkCall (VStr "x") "strtype" (VStr "base")]
  /\ _errors__ (outcome_frame o) = []
  /\ o = Return (mkInstance [("a", VStr "x"); ("b", VNone)] [] tt (Some doc))
                (outcome_frame o)
  /\ ce_params (class_env_of (class_unit Demo.avro_name Demo.shortname Demo.Pair))
     = [("b", false); ("a", true)]
  /\ return_args Demo.avro_name Demo.Pair = ["a"; "b"].
Proof. vm_compute. repeat split; reflexivity. Qed.

Example save_node_runs :
  DemoSave.save_node "http://base/" =
  SReturn [("class", VStr "Node");
           ("id", VList [VStr "http://x/#a"; VStr "http://base/"]);
           ("ref", VList [VStr "http://x/#a/b"; VStr "http://x/#a"])].
Proof. vm_compute. reflexivity. Qed.

Lemma identical_shapes_share_entry_witness :
  exists t1 t2 g1 g2,
    Demo.compile (TSeq [Demo.xsd_string; Demo.xsd_int]) initial_gen
      = inr (t1, g1)
    /\ Demo.compile (TSeq [Demo.xsd_string; Demo.xsd_long]) g1 = inr (t2, g2)
    /\ t1 = t2 /\ registered t1 g2.
Proof.
  do 4 eexists. split; [reflexivity|]. split; [reflexivity|].
  destruct (identical_shapes_share_entry Demo.avro_name Demo.shortname
              (TSeq [Demo.xsd_string; Demo.xsd_int])
              (TSeq [Demo.xsd_string; Demo.xsd_long])
              initial_gen _ _ _ _ _
              (proj1 initial_gen_ok) (proj2 initial_gen_ok)
              eq_refl (extends_refl _)
              (type_loader_wf Demo.avro_name Demo.shortname
                 (TSeq [Demo.xsd_string; Demo.xsd_int]) initial_gen _ _
                 (proj1 initial_gen_ok) eq_refl)
              eq_refl eq_refl) as (H1 & H2 & _).
  exact (conj H1 H2).
Defined.

Lemma union_members_in_declared_order_witness :
  exists t g',
    Demo.compile (TSeq [Demo.xsd_string; Demo.xsd_int]) initial_gen
      = inr (t, g')
    /\ name t = "union_of_strtype_or_inttype"
    /\ init t = "_UnionLoader((strtype, inttype,))".
Proof.
  destruct (union_members_in_declared_order Demo.avro_name Demo.shortname
              [Demo.xsd_string; Demo.xsd_int] initial_gen _
              [Demo.strtype; Demo.inttype]
              (proj1 initial_gen_ok) eq_refl)
    as (t & g' & H1 & _ & H2 & H3 & _).
  exists t, g'. split; [exact H1|]. split; [exact H2|].
  apply H3. reflexivity.
Defined.

(** C3, as stated, fails.  [int] and [long] compile to the same loader, so
    the unions over them in the two orders are one descriptor.  And where a
    member name contains "_or_", two different member sequences are joined to
    the same union name: the second union is then given the entry of the
    first, whose members are in the other order. *)
Lemma union_order_not_distinguished :
  ([Demo.xsd_int; Demo.xsd_long] <> [Demo.xsd_long; Demo.xsd_int]
   /\ [Demo.xsd_int; Demo.xsd_long] ≡ₚ [Demo.xsd_long; Demo.xsd_int]
   /\ exists t g1 g2,
        Demo.compile (TSeq [Demo.xsd_int; Demo.xsd_long]) initial_gen
          = inr (t, g1)
        /\ Demo.compile (TSeq [Demo.xsd_long; Demo.xsd_int]) initial_gen
          = inr (t, g1)
        /\ Demo.compile (TSeq [Demo.xsd_long; Demo.xsd_int]) g1 = inr (t, g2)
        /\ t = union_of [Demo.inttype; Demo.inttype])
  /\ (exists x y t g0 g1 g2 g3,
        Demo.compile Demo.rec_x initial_gen = inr (x, g0)
        /\ Demo.compile Demo.rec_y g0 = inr (y, g1)
        /\ name x <> name y
        /\ Demo.compile (TSeq [Demo.rec_x; Demo.rec_y]) g1 = inr (t, g2)
        /\ Demo.compile (TSeq [Demo.rec_y; Demo.rec_x]) g2 = inr (t, g3)
        /\ t = union_of [x; y]
        /\ union_of [x; y] <> union_of [y; x]
        /\ name (union_of [x; y]) = name (union_of [y; x])).
Proof.
  split.
  - split; [discriminate|]. split; [apply Permutation_swap|].
    do 3 eexists. repeat split; reflexivity.
  - exists (record_loader Demo.avro_name "x"),
           (record_loader Demo.avro_name "xLoader_or_x").
    do 5 eexists.
    split; [reflexivity|]. split; [reflexivity|]. split; [discriminate|].
    split; [reflexivity|]. split; [reflexivity|].
    split; [reflexivity|]. split; [discriminate|]. reflexivity.
Qed.

Lemma save_base_choice_witness :
  exists c,
    serializer (declare_field Demo.avro_name Demo.shortname "ref"
                  Demo.uri_strtype EmptyString false Demo.in_class)
      = serializer Demo.in_class ++ [c]
    /\ exec_save_chunk unit Demo.save_relative_uri Demo.save Demo.prefix_url
         Demo.namespaces DemoSave.node false (VStr "http://base/") true c []
       = SNext [("ref", VList [VStr "http://x/#a/b"; VStr "http://x/#a"])].
Proof.
  destruct (save_base_choice Demo.avro_name Demo.shortname unit
              Demo.save_relative_uri Demo.save Demo.prefix_url Demo.namespaces
              "ref" Demo.uri_strtype EmptyString false Demo.in_class
              DemoSave.node false (VStr "http://base/") true []
              (VStr "http://x/#a/b") (VStr "http://x/#a")
              eq_refl eq_refl eq_refl ltac:(discriminate) eq_refl)
    as (c & H1 & H2).
  exists c. split; [exact H1|]. exact H2.
Defined.

(** C6, as stated, fails: the id field of a record is serialized against
    the [base_url] argument of [save], not against the record's own id. *)
Lemma save_id_against_base_url :
  exists r,
    DemoSave.save_node "http://base/" = SReturn r
    /\ odict_get "id" r
       = Some (Demo.save_relative_uri (VStr "http://x/#a")
                 (VStr "http://base/") true None true)
    /\ odict_get "id" r
       <> Some (Demo.save_relative_uri (VStr "http://x/#a")
                  (VStr "http://x/#a") true None true).
Proof.
  eexists. split; [reflexivity|]. split; [reflexivity|]. discriminate.
Qed.

(** C1, on the code: an id that is present and does not load stops the
    call.  The record has a required id and a label; in the input both are
    invalid.  The id's error is appended to the list, but the id variable is
    left unbound and the next statement reads it: the call ends with
    [UnboundLocalError], the label is never decoded, and no error naming the
    record with the two field errors as children is raised. *)
Theorem invalid_id_stops_fromDoc :
  let doc := [("id", VInt 5); ("label", VInt 7)] in
  let o := Demo.load Demo.Named "u1" doc "base" None in
  o = Crash (UnboundLocalError "id") (outcome_frame o)
  /\ calls (outcome_frame o) = [mkCall (VInt 5) "uri_strtype_True_False_None"
                                       (VStr "base")]
  /\ _errors__ (outcome_frame o)
     = [VExc "the `id` field is not valid because:"
             (Some (mkSourceLine doc "id"))
             [VExc "Expected a uri_strtype_True_False_None" None []]]
  /\ attempted Demo.shortname doc (mkField "label" Demo.strtype EmptyString true)
     = true
  /\ Demo.load_field (VInt 7) "strtype" (VStr "base") tt
     = inl (VExc "Expected a strtype" None []).
Proof. vm_compute. repeat split; reflexivity. Qed.

(** With the required id declared before the optional label, the
    parameters line up: the attribute of the absent label is [None]. *)
Lemma aligned_attributes_witness :
  let doc := [("id", VStr "http://x/#a")] in
  exists i f,
    Demo.load Demo.Named "u1" doc "base" None = Return i f
    /\ odict_get "label" (inst_attrs i) = Some VNone.
Proof.
  intros doc. unfold Demo.load.
  assert (E : exists i f,
            fromDoc unit Demo.load_field Demo.expand_url
                    (class_unit Demo.avro_name Demo.shortname Demo.Named)
                    "u1" doc "base" tt None = Return i f
            /\ lookup_var unit (safe_name Demo.avro_name "label") f
               = Some VNone)
    by (vm_compute; eauto).
  destruct E as (i & f & E & El). exists i, f. split; [exact E|].
  assert (Hnd : NoDup (return_args Demo.avro_name Demo.Named))
    by (apply (bool_decide_unpack _); vm_compute; exact I).
  assert (Hs : safe_name Demo.avro_name "label" <> "class_")
    by (vm_compute; discriminate).
  pose proof (aligned_attributes Demo.avro_name Demo.shortname unit
                Demo.load_field Demo.expand_url Demo.Named "u1" doc "base" tt
                None i f "label" eq_refl eq_refl Hnd E
                (or_intror (or_introl eq_refl)) eq_refl Hs) as H.
  rewrite El in H. exact H.
Defined.
